(** * CollabBoard: the relay, the client debounce and the board store

    A shallow embedding of the room relay (the socket.io server), of the
    debounced canvas broadcast of the client (Canvas.tsx) and of the user
    list of the board store (boardStore.ts), with the properties of the
    synchronisation layer stated over them. *)

From stdpp Require Import gmap strings list fin_maps.

(** ** JavaScript values carried by event payloads

    The payload fields the relay reads are never inspected beyond
    truthiness, strict equality and use as a [Map] key, so they are modelled
    by the primitives that JSON can carry there. A missing field reads
    [undefined]. *)

Inductive value : Type :=
| VUndefined
| VNull
| VStr (s : string)
| VNum (n : Z).

#[global] Instance value_eq_dec : EqDecision value.
Proof. solve_decision. Defined.

Definition value_code (v : value) : unit + (unit + (string + Z)) :=
  match v with
  | VUndefined => inl tt
  | VNull => inr (inl tt)
  | VStr s => inr (inr (inl s))
  | VNum n => inr (inr (inr n))
  end.

Definition value_decode (x : unit + (unit + (string + Z))) : value :=
  match x with
  | inl _ => VUndefined
  | inr (inl _) => VNull
  | inr (inr (inl s)) => VStr s
  | inr (inr (inr n)) => VNum n
  end.

#[global] Instance value_countable : Countable value.
Proof. apply (inj_countable' value_code value_decode). by intros []. Defined.

(** ToBoolean: [undefined], [null], the empty string and [0] are falsy. *)
Definition truthy (v : value) : bool :=
  match v with
  | VUndefined | VNull => false
  | VStr s => negb (bool_decide (s = EmptyString))
  | VNum n => negb (bool_decide (n = 0%Z))
  end.

(** ** The relay (server) *)

Module Relay.

(** [socket.id] *)
Definition sid := string.

Record UserInfo := mkUser { userId : value; userName : value; color : value }.

(** A JS [Map<socketId, UserInfo>]: iteration follows insertion order, and
    [set] on a key already present keeps its position. *)
Definition UserMap := list (sid * UserInfo).

Fixpoint map_get (k : sid) (m : UserMap) : option UserInfo :=
  match m with
  | [] => None
  | (k', v) :: m' => if decide (k' = k) then Some v else map_get k m'
  end.

Fixpoint map_set (k : sid) (v : UserInfo) (m : UserMap) : UserMap :=
  match m with
  | [] => [(k, v)]
  | (k', v') :: m' =>
      if decide (k' = k) then (k, v) :: m' else (k', v') :: map_set k v m'
  end.

Definition map_delete (k : sid) (m : UserMap) : UserMap :=
  filter (λ e, e.1 ≠ k) m.

Definition map_keys (m : UserMap) : list sid := m.*1.
Definition map_values (m : UserMap) : list UserInfo := m.*2.

(** rooms: Map<boardId, { canvasJSON: string|null, users: Map<socketId, UserInfo> }> *)
Record Room := mkRoom { canvasJSON : value; users : UserMap }.

Definition with_users (m : UserMap) (r : Room) : Room :=
  {| canvasJSON := canvasJSON r; users := m |}.
Definition with_canvas (j : value) (r : Room) : Room :=
  {| canvasJSON := j; users := users r |}.

(** Server-to-client events. *)
Inductive message : Type :=
| MRoomState (canvas : value) (peers : list UserInfo)
| MUsersUpdate (userList : list UserInfo)
| MUserLeft (uid : value)
| MCanvasSync (canvas : value)
| MCursorMove (uid x y : value)
| MAck.

(** One [emit]: the sockets it is delivered to and the event. *)
Record emission := mkEmit { target : gset sid; msg : message }.

(** The state the handlers share.
    - [rooms] is the module-level registry;
    - [joined] is the room membership kept by socket.io itself
      ([socket.join] / [socket.leave]), the audience of [io.to(room)];
      only the rooms the handlers name are tracked, not the private room
      socket.io gives every socket under its own id, and a connection id
      is not reused after its disconnect (no session recovery);
    - [myBoardId] holds the closure variable of each connection, which
      reads [null] until the connection joins;
    - [closed] are the connections whose disconnect has been handled: a
      socket delivers no event after it. *)
Record relay := mkRelay {
  rooms : gmap value Room;
  joined : gset (value * sid);
  myBoardId : gmap sid value;
  closed : gset sid
}.

Definition initial : relay :=
  {| rooms := ∅; joined := ∅; myBoardId := ∅; closed := ∅ |}.

(** The sockets that socket.io has in room [B]. *)
Definition in_room (j : gset (value * sid)) (B : value) : gset sid :=
  set_map snd (filter (λ p, p.1 = B) j).

Definition board_of (σ : relay) (c : sid) : value :=
  default VNull (myBoardId σ !! c).

(** *** Handlers as state transformers that log what they emit *)

Definition Handler (A : Type) : Type := relay → A * relay * list emission.

#[global] Instance handler_ret : MRet Handler := λ A a σ, (a, σ, []).
#[global] Instance handler_bind : MBind Handler := λ A B k m σ,
  let '(a, σ1, out1) := m σ in
  let '(b, σ2, out2) := k a σ1 in
  (b, σ2, out1 ++ out2).

Definition exec {A} (m : Handler A) (σ : relay) : relay * list emission :=
  let '(_, σ', out) := m σ in (σ', out).

Definition rooms_get (B : value) : Handler (option Room) :=
  λ σ, (rooms σ !! B, σ, []).

Definition rooms_set (B : value) (r : Room) : Handler unit :=
  λ σ, (tt, {| rooms := <[B := r]> (rooms σ); joined := joined σ;
               myBoardId := myBoardId σ; closed := closed σ |}, []).

Definition rooms_delete (B : value) : Handler unit :=
  λ σ, (tt, {| rooms := delete B (rooms σ); joined := joined σ;
               myBoardId := myBoardId σ; closed := closed σ |}, []).

Definition socket_join (c : sid) (B : value) : Handler unit :=
  λ σ, (tt, {| rooms := rooms σ; joined := {[ (B, c) ]} ∪ joined σ;
               myBoardId := myBoardId σ; closed := closed σ |}, []).

Definition socket_leave (c : sid) (B : value) : Handler unit :=
  λ σ, (tt, {| rooms := rooms σ; joined := joined σ ∖ {[ (B, c) ]};
               myBoardId := myBoardId σ; closed := closed σ |}, []).

Definition get_myBoardId (c : sid) : Handler value :=
  λ σ, (board_of σ c, σ, []).

Definition set_myBoardId (c : sid) (B : value) : Handler unit :=
  λ σ, (tt, {| rooms := rooms σ; joined := joined σ;
               myBoardId := <[c := B]> (myBoardId σ); closed := closed σ |}, []).

(** [io.to(B).emit(m)] *)
Definition emit_room (B : value) (m : message) : Handler unit :=
  λ σ, (tt, σ, [mkEmit (in_room (joined σ) B) m]).

(** [socket.to(B).emit(m)]: the room without the sending socket *)
Definition emit_others (c : sid) (B : value) (m : message) : Handler unit :=
  λ σ, (tt, σ, [mkEmit (in_room (joined σ) B ∖ {[ c ]}) m]).

(** [socket.emit(m)] *)
Definition emit_self (c : sid) (m : message) : Handler unit :=
  λ σ, (tt, σ, [mkEmit {[ c ]} m]).

Definition fresh_room : Room := {| canvasJSON := VNull; users := [] |}.

Definition getRoom (B : value) : Handler Room :=
  r ← rooms_get B;
  match r with
  | Some room => mret room
  | None => rooms_set B fresh_room;; mret fresh_room
  end.

Definition broadcastUsers (B : value) : Handler unit :=
  r ← rooms_get B;
  match r with
  | None => mret tt
  | Some room => emit_room B (MUsersUpdate (map_values (users room)))
  end.

Definition cleanEmptyRoom (B : value) : Handler unit :=
  r ← rooms_get B;
  match r with
  | Some room =>
      if bool_decide (length (users room) = 0%nat) then rooms_delete B
      else mret tt
  | None => mret tt
  end.

Record JoinPayload := mkJoin {
  jp_boardId : value; jp_userId : value; jp_userName : value; jp_color : value
}.
Record SyncPayload := mkSync { sp_boardId : value; sp_canvasJSON : value }.
Record CursorPayload := mkCursor {
  cp_boardId : value; cp_userId : value; cp_x : value; cp_y : value
}.

Definition identity (p : JoinPayload) : UserInfo :=
  {| userId := jp_userId p; userName := jp_userName p; color := jp_color p |}.

(** socket.on('join-room', ({ boardId, userId, userName, color }) => ...) *)
Definition join_room (c : sid) (p : JoinPayload) : Handler unit :=
  let boardId := jp_boardId p in
  mine ← get_myBoardId c;
  (if truthy mine && bool_decide (mine ≠ boardId) then
     socket_leave c mine;;
     prevRoom ← rooms_get mine;
     match prevRoom with
     | Some prev =>
         rooms_set mine (with_users (map_delete c (users prev)) prev);;
         broadcastUsers mine;;
         cleanEmptyRoom mine
     | None => mret tt
     end
   else mret tt);;
  set_myBoardId c boardId;;
  socket_join c boardId;;
  room ← getRoom boardId;
  let room' := with_users (map_set c (identity p) (users room)) room in
  rooms_set boardId room';;
  let otherUsers := map_values (filter (λ e, e.1 ≠ c) (users room')) in
  emit_self c (MRoomState (canvasJSON room') otherUsers);;
  broadcastUsers boardId.

(** socket.on('canvas-sync', ({ boardId, canvasJSON }) => ...) *)
Definition canvas_sync (c : sid) (p : SyncPayload) : Handler unit :=
  room ← getRoom (sp_boardId p);
  rooms_set (sp_boardId p) (with_canvas (sp_canvasJSON p) room);;
  emit_others c (sp_boardId p) (MCanvasSync (sp_canvasJSON p)).

(** socket.on('cursor-move', ({ boardId, userId, x, y }) => ...) *)
Definition cursor_move (c : sid) (p : CursorPayload) : Handler unit :=
  emit_others c (cp_boardId p) (MCursorMove (cp_userId p) (cp_x p) (cp_y p)).

(** socket.on('ping', (callback) => ...): [is_function] is
    [typeof callback === 'function']; calling the callback acknowledges. *)
Definition ping (c : sid) (is_function : bool) : Handler unit :=
  if is_function then emit_self c MAck else mret tt.

(** What socket.io does before it fires 'disconnect': the socket has left
    every room, and it is gone for good. *)
Definition socket_close (c : sid) : Handler unit :=
  λ σ, (tt, {| rooms := rooms σ;
               joined := filter (λ p, p.2 ≠ c) (joined σ);
               myBoardId := myBoardId σ;
               closed := {[ c ]} ∪ closed σ |}, []).

(** socket.on('disconnect', (reason) => ...) *)
Definition disconnect (c : sid) : Handler unit :=
  mine ← get_myBoardId c;
  if negb (truthy mine) then mret tt else
  r ← rooms_get mine;
  match r with
  | None => mret tt
  | Some room =>
      let user := map_get c (users room) in
      rooms_set mine (with_users (map_delete c (users room)) room);;
      match user with
      | Some u =>
          emit_room mine (MUserLeft (userId u));;
          broadcastUsers mine
      | None => mret tt
      end;;
      cleanEmptyRoom mine;;
      set_myBoardId c VNull
  end.

(** Client-to-server events. A payload is [None] when the client sent no
    argument (or [null]): destructuring it in the handler's parameter list
    throws a TypeError before the body runs. Any other payload
    destructures, with [VUndefined] for each field it lacks. *)
Inductive event : Type :=
| JoinRoom (p : option JoinPayload)
| CanvasSync (p : option SyncPayload)
| CursorMove (p : option CursorPayload)
| Ping (is_function : bool)
| Disconnect.

(** One event of connection [c]; [None] is an exception thrown out of the
    handler. *)
Definition handle (c : sid) (e : event) (σ : relay)
  : option (relay * list emission) :=
  match e with
  | JoinRoom p => (λ p, exec (join_room c p) σ) <$> p
  | CanvasSync p => (λ p, exec (canvas_sync c p) σ) <$> p
  | CursorMove p => (λ p, exec (cursor_move c p) σ) <$> p
  | Ping f => Some (exec (ping c f) σ)
  | Disconnect => Some (exec (socket_close c;; disconnect c) σ)
  end.

(** The states the relay can be in: every event comes from a connection
    that has not been closed. *)
Inductive reachable : relay → Prop :=
| reach_initial : reachable initial
| reach_step σ c e σ' out :
    reachable σ → c ∉ closed σ → handle c e σ = Some (σ', out) →
    reachable σ'.

(** A run of events, each from its connection; it stops at the first
    handler that throws. *)
Fixpoint run (evs : list (sid * event)) (σ : relay)
  : option (relay * list emission) :=
  match evs with
  | [] => Some (σ, [])
  | (c, e) :: evs' =>
      '(σ1, out1) ← handle c e σ;
      '(σ2, out2) ← run evs' σ1;
      Some (σ2, out1 ++ out2)
  end.

(** Every event of the run comes from a connection that is open when it
    is handled, and no handler throws. *)
Fixpoint from_open (evs : list (sid * event)) (σ : relay) : bool :=
  match evs with
  | [] => true
  | (c, e) :: evs' =>
      bool_decide (c ∉ closed σ) &&
      match handle c e σ with
      | Some (σ1, _) => from_open evs' σ1
      | None => false
      end
  end.

(** The state the relay is in once it has handled [evs] since it started. *)
Definition state_after (evs : list (sid * event)) : relay :=
  match run evs initial with
  | Some (σ, _) => σ
  | None => initial
  end.

(** The messages a handler run delivers to connection [c], in order. *)
Definition inbox (c : sid) (out : list emission) : list message :=
  msg <$> filter (λ e, c ∈ target e) out.

(** The canvas fields of the room-state events among some messages. *)
Definition room_states (ms : list message) : list value :=
  omap (λ m, match m with MRoomState j _ => Some j | _ => None end) ms.

(** *** Reading the registry *)

Definition room_at (rs : gmap value Room) (B : value) : Room :=
  default fresh_room (rs !! B).

Definition snapshot (σ : relay) (B : value) : value :=
  canvasJSON (room_at (rooms σ) B).

Definition members (σ : relay) (B : value) : UserMap :=
  users (room_at (rooms σ) B).

(** *** The handlers in closed form *)

(** Removing connection [c] from room [A], and the room with it when that
    leaves it empty: [users.delete] followed by [cleanEmptyRoom]. *)
Definition drop_member (c : sid) (A : value) (rs : gmap value Room)
  : gmap value Room :=
  match rs !! A with
  | Some prev =>
      let us := map_delete c (users prev) in
      if bool_decide (length us = 0%nat) then delete A rs
      else <[A := with_users us prev]> rs
  | None => rs
  end.

Definition switches (σ : relay) (c : sid) (B : value) : bool :=
  truthy (board_of σ c) && bool_decide (board_of σ c ≠ B).

Definition left_announce (c : sid) (B : value) (σ : relay) : list emission :=
  let A := board_of σ c in
  if switches σ c B then
    match rooms σ !! A with
    | Some prev =>
        [mkEmit (in_room (joined σ ∖ {[ (A, c) ]}) A)
           (MUsersUpdate (map_values (map_delete c (users prev))))]
    | None => []
    end
  else [].

Definition joined_state (c : sid) (p : JoinPayload) (σ : relay) : relay :=
  let A := board_of σ c in
  let B := jp_boardId p in
  let rs1 := if switches σ c B then drop_member c A (rooms σ) else rooms σ in
  let j1 := if switches σ c B then joined σ ∖ {[ (A, c) ]} else joined σ in
  let room := room_at rs1 B in
  {| rooms := <[B := with_users (map_set c (identity p) (users room)) room]> rs1;
     joined := {[ (B, c) ]} ∪ j1;
     myBoardId := <[c := B]> (myBoardId σ);
     closed := closed σ |}.

Definition synced_state (p : SyncPayload) (σ : relay) : relay :=
  let B := sp_boardId p in
  {| rooms := <[B := with_canvas (sp_canvasJSON p) (room_at (rooms σ) B)]> (rooms σ);
     joined := joined σ;
     myBoardId := myBoardId σ;
     closed := closed σ |}.

Definition closed_state (c : sid) (σ : relay) : relay :=
  let A := board_of σ c in
  let cleans := truthy A && bool_decide (is_Some (rooms σ !! A)) in
  {| rooms := if cleans then drop_member c A (rooms σ) else rooms σ;
     joined := filter (λ p, p.2 ≠ c) (joined σ);
     myBoardId := if cleans then <[c := VNull]> (myBoardId σ) else myBoardId σ;
     closed := {[ c ]} ∪ closed σ |}.

Definition closed_announce (c : sid) (σ : relay) : list emission :=
  let A := board_of σ c in
  let peers := in_room (filter (λ p, p.2 ≠ c) (joined σ)) A in
  if truthy A then
    match rooms σ !! A with
    | Some room =>
        match map_get c (users room) with
        | Some u =>
            [mkEmit peers (MUserLeft (userId u));
             mkEmit peers (MUsersUpdate (map_values (map_delete c (users room))))]
        | None => []
        end
    | None => []
    end
  else [].




(** Every room of the registry has a member. *)
Definition populated (σ : relay) : Prop :=
  ∀ B room, rooms σ !! B = Some room → users room ≠ [].

(** A canvas-sync that names a board the registry has no room for. *)
Definition stray (σ : relay) (e : event) : Prop :=
  match e with
  | CanvasSync (Some p) => rooms σ !! sp_boardId p = None
  | _ => False
  end.

(** An event that names board [B] in a join or a canvas update. *)
Definition touches (B : value) (e : event) : Prop :=
  match e with
  | JoinRoom (Some p) => jp_boardId p = B
  | CanvasSync (Some p) => sp_boardId p = B
  | _ => False
  end.

(** The payload of the last canvas-sync for board [B] in a sequence. *)
Fixpoint last_sync (B : value) (syncs : list (sid * SyncPayload))
  : option value :=
  match syncs with
  | [] => None
  | (_, p) :: rest =>
      match last_sync B rest with
      | Some j => Some j
      | None => if decide (sp_boardId p = B) then Some (sp_canvasJSON p) else None
      end
  end.

Definition sync_events (syncs : list (sid * SyncPayload)) : list (sid * event) :=
  (λ cp, (cp.1, CanvasSync (Some cp.2))) <$> syncs.

(** *** States used as concrete instances *)

Definition alice : JoinPayload :=
  mkJoin (VStr "abc123") (VStr "u-x") (VStr "Alex") (VStr "#F59E0B").
Definition bob : JoinPayload :=
  mkJoin (VStr "abc123") (VStr "u-y") (VStr "Blake") (VStr "#10B981").

Definition first_snapshot : SyncPayload :=
  mkSync (VStr "abc123") (VStr "{shapes:[]}").

(** X has joined board "abc123" and sent one snapshot, then Y has joined. *)
Definition two_peers_events : list (sid * event) :=
  [("X", JoinRoom (Some alice)); ("X", CanvasSync (Some first_snapshot));
   ("Y", JoinRoom (Some bob))].

Definition two_peers : relay := state_after two_peers_events.

Definition carol : JoinPayload :=
  mkJoin (VStr "abc123") (VStr "u-z") (VStr "Casey") (VStr "#EF4444").

(** X alone on board "abc123", with a snapshot stored. *)
Definition lone_peer_events : list (sid * event) :=
  [("X", JoinRoom (Some alice)); ("X", CanvasSync (Some first_snapshot))].

Definition lone_peer : relay := state_after lone_peer_events.

Definition bystander_events : list (sid * event) :=
  [("Y", CursorMove (Some (mkCursor (VStr "abc123") (VStr "u-y") (VNum 3) (VNum 4))));
   ("Y", Ping true)].


(** *** The invariant of reachable states *)

Record consistent (σ : relay) : Prop := {
  joined_member : ∀ B c, (B, c) ∈ joined σ → c ∈ map_keys (members σ B);
  joined_open : ∀ B c, (B, c) ∈ joined σ → c ∉ closed σ;
  member_joined : ∀ B c,
    c ∈ map_keys (members σ B) → c ∉ closed σ → (B, c) ∈ joined σ;
  member_board : ∀ B c,
    truthy B = true → c ∈ map_keys (members σ B) → board_of σ c = B
}.

End Relay.

(** ** The debounced canvas broadcast of the client (Canvas.tsx) *)

Module Sync.

(** The refs of one Canvas component, the browser's table of pending
    timeouts, and what went out on the socket. The clock counts
    milliseconds.
    - [fc] is the serialisation [JSON.stringify(fc.toJSON())] of the Fabric
      canvas object as it stands; [fabricRef] tells whether
      [fabricRef.current] is that object ([true]) or [null];
    - [timers] are the timeouts set and neither fired nor cleared, each
      with its id and the time it is due; [next_timer] is the id the next
      [setTimeout] returns (ids are positive, hence truthy);
    - [outbox] are the canvas-sync events emitted, as boardId and
      canvasJSON. *)
Record client := mkClient {
  board : string;
  fc : string;
  fabricRef : bool;
  isRemoteUpdateRef : bool;
  syncTimerRef : option positive;
  timers : list (positive * nat);
  next_timer : positive;
  clock : nat;
  outbox : list (string * string)
}.

Definition mounted (boardId json : string) : client :=
  {| board := boardId; fc := json; fabricRef := true;
     isRemoteUpdateRef := false; syncTimerRef := None; timers := [];
     next_timer := 1%positive; clock := 0; outbox := [] |}.

Definition debounce_ms : nat := 120.

Definition clearTimeout (id : positive) (ts : list (positive * nat))
  : list (positive * nat) :=
  filter (λ t, t.1 ≠ id) ts.

(** const emitCanvasSync = useCallback(() => { ... }, [fabricRef]) *)
Definition emitCanvasSync (st : client) : client :=
  if isRemoteUpdateRef st then st else
  if negb (fabricRef st) then st else
  let pending :=
    match syncTimerRef st with
    | Some id => clearTimeout id (timers st)
    | None => timers st
    end in
  {| board := board st; fc := fc st; fabricRef := fabricRef st;
     isRemoteUpdateRef := isRemoteUpdateRef st;
     syncTimerRef := Some (next_timer st);
     timers := pending ++ [(next_timer st, clock st + debounce_ms)];
     next_timer := Pos.succ (next_timer st);
     clock := clock st; outbox := outbox st |}.

(** The callback handed to [setTimeout]: serialise the canvas as it is
    now, emit, and drop the reference to the timer. *)
Definition on_timeout (st : client) : client :=
  {| board := board st; fc := fc st; fabricRef := fabricRef st;
     isRemoteUpdateRef := isRemoteUpdateRef st;
     syncTimerRef := None;
     timers := timers st;
     next_timer := next_timer st;
     clock := clock st; outbox := outbox st ++ [(board st, fc st)] |}.

(** A local mutation of the canvas (object:added, object:modified,
    object:removed): the canvas now serialises to [json], and
    [saveAfterAction] runs. The history it pushes lives in the store. *)
Definition mutation (json : string) (st : client) : client :=
  let st1 :=
    {| board := board st; fc := json; fabricRef := fabricRef st;
       isRemoteUpdateRef := isRemoteUpdateRef st;
       syncTimerRef := syncTimerRef st; timers := timers st;
       next_timer := next_timer st; clock := clock st; outbox := outbox st |} in
  if isRemoteUpdateRef st1 then st1 else emitCanvasSync st1.

(** [ms] milliseconds pass: the timeouts that come due fire, in the order
    they were set. *)
Definition elapse (ms : nat) (st : client) : client :=
  let now := clock st + ms in
  let due := filter (λ t, t.2 ≤ now) (timers st) in
  let st1 :=
    {| board := board st; fc := fc st; fabricRef := fabricRef st;
       isRemoteUpdateRef := isRemoteUpdateRef st;
       syncTimerRef := syncTimerRef st;
       timers := filter (λ t, ¬ t.2 ≤ now) (timers st);
       next_timer := next_timer st; clock := now; outbox := outbox st |} in
  foldl (λ s _, on_timeout s) st1 due.

(** applyRemoteCanvas: the flag is raised while the snapshot loads ... *)
Definition applyRemoteCanvas (st : client) : client :=
  if negb (fabricRef st) then st else
  {| board := board st; fc := fc st; fabricRef := fabricRef st;
     isRemoteUpdateRef := true;
     syncTimerRef := syncTimerRef st; timers := timers st;
     next_timer := next_timer st; clock := clock st; outbox := outbox st |}.

(** ... and lowered once [loadFromJSON] has replaced the contents. *)
Definition remote_loaded (json : string) (st : client) : client :=
  {| board := board st; fc := json; fabricRef := fabricRef st;
     isRemoteUpdateRef := false;
     syncTimerRef := syncTimerRef st; timers := timers st;
     next_timer := next_timer st; clock := clock st; outbox := outbox st |}.

(** The cleanup of the effect that created the canvas. *)
Definition unmount (st : client) : client :=
  {| board := board st; fc := fc st; fabricRef := false;
     isRemoteUpdateRef := isRemoteUpdateRef st;
     syncTimerRef := syncTimerRef st;
     timers := match syncTimerRef st with
               | Some id => clearTimeout id (timers st)
               | None => timers st
               end;
     next_timer := next_timer st; clock := clock st; outbox := outbox st |}.

Inductive event : Type :=
| Mutation (json : string)
| Elapse (ms : nat)
| RemoteSync
| RemoteLoaded (json : string)
| Unmount.

Definition step (e : event) (st : client) : client :=
  match e with
  | Mutation json => mutation json st
  | Elapse ms => elapse ms st
  | RemoteSync => applyRemoteCanvas st
  | RemoteLoaded json => remote_loaded json st
  | Unmount => unmount st
  end.

Definition run (evs : list event) (st : client) : client :=
  foldl (λ s e, step e s) st evs.


(** Every pending timeout is the one [syncTimerRef] holds. *)
Definition tidy (st : client) : Prop :=
  match timers st with
  | [] => True
  | [(id, _)] => syncTimerRef st = Some id
  | _ => False
  end.

(** A timeout is pending for the full delay and the canvas reads [json]. *)
Definition armed (st : client) (json : string) : Prop :=
  fabricRef st = true ∧ isRemoteUpdateRef st = false ∧ fc st = json ∧
  ∃ id, timers st = [(id, clock st + debounce_ms)] ∧ syncTimerRef st = Some id.

End Sync.

(** ** The list of remote users in the board store (boardStore.ts) *)

Module Store.

Section ActiveUsers.

(** Cursor coordinates are only stored and copied. *)
Context {number : Type}.

Record UserCursor := mkCursor { x : number; y : number }.

Record User := mkUser {
  id : string; name : string; color : string; cursor : UserCursor
}.

(** activeUsers: [...s.activeUsers.filter((u) => u.id !== user.id), user] *)
Definition addUser (user : User) (activeUsers : list User) : list User :=
  filter (λ u, id u ≠ id user) activeUsers ++ [user].

Definition removeUser (userId : string) (activeUsers : list User) : list User :=
  filter (λ u, id u ≠ userId) activeUsers.

Definition updateUserCursor (userId : string) (cx cy : number)
    (activeUsers : list User) : list User :=
  (λ u, if decide (id u = userId)
        then {| id := id u; name := name u; color := color u;
                cursor := {| x := cx; y := cy |} |}
        else u) <$> activeUsers.

Inductive action : Type :=
| AddUser (user : User)
| RemoveUser (userId : string)
| UpdateUserCursor (userId : string) (cx cy : number).

Definition dispatch (a : action) (activeUsers : list User) : list User :=
  match a with
  | AddUser user => addUser user activeUsers
  | RemoveUser userId => removeUser userId activeUsers
  | UpdateUserCursor userId cx cy => updateUserCursor userId cx cy activeUsers
  end.

(** The store starts with [activeUsers: []]. *)
Definition after (actions : list action) : list User :=
  foldl (λ users a, dispatch a users) [] actions.

End ActiveUsers.

End Store.

(** ** Observations on the relay used by further properties *)

Module RelayObs.

Import Relay.


(** An open connection whose [myBoardId] is truthy is in that room. *)
Definition anchored (σ : relay) : Prop :=
  ∀ c, c ∉ closed σ → truthy (board_of σ c) = true →
       c ∈ map_keys (members σ (board_of σ c)).

(** No event of the run is a canvas-sync naming a board that has no room
    when it is handled. *)
Fixpoint never_stray (evs : list (sid * event)) (σ : relay) : Prop :=
  match evs with
  | [] => True
  | (c, e) :: evs' =>
      ¬ stray σ e ∧
      match handle c e σ with
      | Some (σ1, _) => never_stray evs' σ1
      | None => True
      end
  end.

(** X, alone on "abc123", has moved on to board "other"; Y never joined. *)
Definition moved_on_events : list (sid * event) :=
  [("X", JoinRoom (Some alice));
   ("X", JoinRoom (Some (mkJoin (VStr "other") (VStr "u-x") (VStr "Alex")
                           (VStr "#F59E0B"))))].

Definition moved_on : relay := state_after moved_on_events.

End RelayObs.

(** ** Observations on the client used by further properties *)

Module SyncObs.

Import Sync.

(** The canvas is gone and no timeout is pending. *)
Definition unmounted (st : client) : Prop :=
  fabricRef st = false ∧ timers st = [].


End SyncObs.

(** ** Undo history and zoom in the board store (boardStore.ts) *)

Module Board.

(** Array.prototype.slice(start, end) on integer arguments: a negative
    index counts from the end, and both are clamped to the array. *)
Definition slice {A} (start stop : Z) (l : list A) : list A :=
  let len := Z.of_nat (length l) in
  let from := if (start <? 0)%Z then Z.max (len + start) 0 else Z.min start len in
  let to := if (stop <? 0)%Z then Z.max (len + stop) 0 else Z.min stop len in
  take (Z.to_nat (to - from)) (drop (Z.to_nat from) l).

(** slice(start): up to the end of the array. *)
Definition slice_from {A} (start : Z) (l : list A) : list A :=
  slice start (Z.of_nat (length l)) l.

(** history[i]: [undefined] outside the array. *)
Definition entry (l : list string) (i : Z) : value :=
  if (i <? 0)%Z then VUndefined else
  match l !! Z.to_nat i with
  | Some s => VStr s
  | None => VUndefined
  end.

Record store := mkStore { history : list string; historyIndex : Z }.

(** history: [], historyIndex: -1 *)
Definition empty_store : store := {| history := []; historyIndex := (-1)%Z |}.

Definition pushHistory (state : string) (s : store) : store :=
  let trimmed := slice 0 (historyIndex s + 1) (history s) in
  let next := slice_from (-50) (trimmed ++ [state]) in
  {| history := next; historyIndex := (Z.of_nat (length next) - 1)%Z |}.

Definition undo (s : store) : value * store :=
  if (historyIndex s <=? 0)%Z then (VNull, s) else
  let nextIndex := (historyIndex s - 1)%Z in
  (entry (history s) nextIndex,
   {| history := history s; historyIndex := nextIndex |}).

Definition redo (s : store) : value * store :=
  if (historyIndex s >=? Z.of_nat (length (history s)) - 1)%Z then (VNull, s) else
  let nextIndex := (historyIndex s + 1)%Z in
  (entry (history s) nextIndex,
   {| history := history s; historyIndex := nextIndex |}).

Definition clearBoard (s : store) : store :=
  {| history := []; historyIndex := (-1)%Z |}.

Inductive history_action : Type :=
| PushHistory (state : string)
| Undo
| Redo
| ClearBoard.

Definition apply_action (a : history_action) (s : store) : store :=
  match a with
  | PushHistory state => pushHistory state s
  | Undo => (undo s).2
  | Redo => (redo s).2
  | ClearBoard => clearBoard s
  end.

Definition history_after (actions : list history_action) : store :=
  foldl (λ s a, apply_action a s) empty_store actions.

(** The index points into the history, which holds at most fifty
    snapshots, or the history is empty and the index is -1. *)
Definition wellformed (s : store) : Prop :=
  (history s = [] ∧ historyIndex s = (-1)%Z) ∨
  (0 ≤ historyIndex s < Z.of_nat (length (history s)))%Z ∧
  length (history s) ≤ 50.

(** *** Zoom *)

(** zoom: Math.min(200, Math.max(50, zoom)). The percentage is an
    integer: it starts at 100 and the callers pass [zoom - 10] or
    [zoom + 10]. *)
Definition setZoom (zoom : Z) : Z := Z.min 200 (Z.max 50 zoom).

Definition initial_zoom : Z := 100%Z.

(** The two zoom buttons of the top bar (TopBar.tsx). *)
Inductive zoom_button : Type := ZoomOut | ZoomIn.

Definition click (b : zoom_button) (zoom : Z) : Z :=
  match b with
  | ZoomOut => setZoom (zoom - 10)
  | ZoomIn => setZoom (zoom + 10)
  end.

Definition zoom_after (clicks : list zoom_button) : Z :=
  foldl (λ zoom b, click b zoom) initial_zoom clicks.

End Board.

(** ** The presence handlers of the application (App.tsx) *)

Module Presence.

Import Store.

Section Handlers.

Context {number : Type}.

(** The coordinates [-200, -200], off the screen. *)
Context (offscreen : @UserCursor number).

(** A user as the relay sends it. *)
Record WireUser := mkWire {
  userId : string; userName : string; wireColor : string
}.

Definition peer (u : WireUser) : @User number :=
  {| id := userId u; name := userName u; color := wireColor u;
     cursor := offscreen |}.

(** room-state: setActiveUsers(users.map(...)) *)
Definition on_room_state (users : list WireUser)
    (activeUsers : list (@User number)) : list (@User number) :=
  peer <$> users.

(** user-joined *)
Definition on_user_joined (u : WireUser)
    (activeUsers : list (@User number)) : list (@User number) :=
  addUser (peer u) activeUsers.

(** user-left *)
Definition on_user_left (uid : string)
    (activeUsers : list (@User number)) : list (@User number) :=
  removeUser uid activeUsers.

(** cursor-move *)
Definition on_cursor_move (uid : string) (cx cy : number)
    (activeUsers : list (@User number)) : list (@User number) :=
  updateUserCursor uid cx cy activeUsers.


End Handlers.

(** A list with one peer, whose cursor is at (5, 7). *)
Definition ada : @User Z :=
  {| id := "u1"; name := "Ada"; color := "#10B981";
     cursor := {| x := 5%Z; y := 7%Z |} |}.

End Presence.

(** ** The connection settings of the client (socket.ts) *)

Module Config.

(** import.meta.env: VITE_SOCKET_URL is a string or undefined. *)
Record env := mkEnv { VITE_SOCKET_URL : option string; DEV : bool }.

Definition configured (e : env) : bool :=
  match VITE_SOCKET_URL e with
  | Some url => negb (String.eqb url EmptyString)
  | None => false
  end.

Definition collabAvailable (e : env) : bool := configured e || DEV e.

(** VITE_SOCKET_URL ?? '/' *)
Definition socketUrl (e : env) : string :=
  match VITE_SOCKET_URL e with
  | Some url => url
  | None => "/"
  end.

Definition socketPath (e : env) : string :=
  if configured e then "/socket.io"
  else if DEV e then "/socket.io"
  else "/api/socket".

Inductive transport : Type := websocket | polling.

Definition transports (e : env) : list transport :=
  if collabAvailable e then [websocket; polling] else [polling].

(** [None] is Infinity. *)
Definition reconnectionAttempts (e : env) : option nat :=
  if collabAvailable e then None else Some 5.

End Config.

(** ** The board of the tab (user.ts) *)

Module Location.

(** The query string of the page as URLSearchParams reads it: the list
    of its name/value pairs, in order. *)
Definition params : Type := list (string * string).

(** URLSearchParams.get: the value of the first pair with that name. *)
Fixpoint get (name : string) (ps : params) : option string :=
  match ps with
  | [] => None
  | (k, v) :: ps => if decide (k = name) then Some v else get name ps
  end.

(** URLSearchParams.set: the first pair with that name takes the value
    and the others are removed; without such a pair, one is appended. *)
Fixpoint set (name value : string) (ps : params) : params :=
  match ps with
  | [] => [(name, value)]
  | (k, v) :: ps =>
      if decide (k = name)
      then (name, value) :: filter (λ p, p.1 ≠ name) ps
      else (k, v) :: set name value ps
  end.

(** getBoardId, on the query string of the page. [random] is what
    [Math.random().toString(36).slice(2, 10)] gives when it is drawn.
    The result is the id and the query string the page has afterwards. *)
Definition getBoardId (random : string) (search : params) : string * params :=
  match get "board" search with
  | Some boardId =>
      if String.eqb boardId EmptyString
      then (random, set "board" random search)
      else (boardId, search)
  | None => (random, set "board" random search)
  end.

End Location.

(** * Properties *)

(** ** The relay *)

Module RelayProps.

Import Relay.

Ltac run_handler :=
  unfold exec, join_room, canvas_sync, cursor_move, ping, disconnect,
    socket_close, getRoom, broadcastUsers, cleanEmptyRoom, rooms_get,
    rooms_set, rooms_delete, socket_join, socket_leave, get_myBoardId,
    set_myBoardId, emit_room, emit_others, emit_self, mbind, mret,
    handler_bind, handler_ret; cbn.

(** *** The insertion-ordered user map *)

Lemma map_keys_set k v m k' :
  k' ∈ map_keys (map_set k v m) ↔ k' = k ∨ k' ∈ map_keys m.
Proof.
  unfold map_keys. induction m as [|[k0 v0] m IH]; cbn.
  - rewrite list_elem_of_singleton, elem_of_nil. tauto.
  - case_decide; subst; cbn; rewrite !elem_of_cons; [|rewrite IH]; tauto.
Qed.

Lemma map_keys_delete k m k' :
  k' ∈ map_keys (map_delete k m) ↔ k' ≠ k ∧ k' ∈ map_keys m.
Proof.
  unfold map_keys, map_delete. rewrite !list_elem_of_fmap. split.
  - intros ([k0 v0] & -> & [H1 H2]%list_elem_of_filter). cbn in *.
    split; [done|]. by exists (k0, v0).
  - intros [Hne ([k0 v0] & -> & H)]. exists (k0, v0). split; [done|].
    by apply list_elem_of_filter.
Qed.

Lemma map_get_set k v m : map_get k (map_set k v m) = Some v.
Proof.
  induction m as [|[k0 v0] m IH]; cbn.
  - by rewrite decide_True.
  - case_decide; cbn; [by rewrite decide_True | by rewrite decide_False].
Qed.

Lemma map_set_id k v m : map_get k m = Some v → map_set k v m = m.
Proof.
  induction m as [|[k0 v0] m IH]; cbn; [done|].
  case_decide; [by intros [= ->]; subst | intros ?; f_equal; auto].
Qed.

Lemma map_delete_set k v m :
  map_delete k (map_set k v m) = map_delete k m.
Proof.
  unfold map_delete. induction m as [|[k0 v0] m IH]; cbn.
  - by rewrite decide_False by tauto.
  - repeat (case_decide; cbn; subst); try done; by f_equal.
Qed.

Lemma map_delete_sole k m : map_keys m = [k] → map_delete k m = [].
Proof.
  destruct m as [|[k0 v0] [|? ?]]; cbn; try done.
  intros [= ->]. unfold map_delete. cbn. by rewrite decide_False by tauto.
Qed.

Lemma elem_of_in_room j B c : c ∈ in_room j B ↔ (B, c) ∈ j.
Proof.
  unfold in_room. rewrite elem_of_map. split.
  - intros ([B' c'] & -> & [H1 H2]%elem_of_filter). cbn in *. by subst.
  - intros H. exists (B, c). split; [done|]. by apply elem_of_filter.
Qed.

(** *** Each handler computes its closed form *)

Lemma join_room_exec c p σ :
  exec (join_room c p) σ =
    let σ' := joined_state c p σ in
    let B := jp_boardId p in
    (σ',
     left_announce c B σ ++
     [mkEmit {[ c ]} (MRoomState (snapshot σ' B)
         (map_values (filter (λ e, e.1 ≠ c) (members σ' B))));
      mkEmit (in_room (joined σ') B) (MUsersUpdate (map_values (members σ' B)))]).
Proof.
  unfold joined_state, left_announce, switches, drop_member, snapshot,
    members, room_at.
  run_handler.
  destruct (truthy (board_of σ c) && bool_decide (board_of σ c ≠ jp_boardId p))
    eqn:Hl; cbn.
  - apply andb_prop in Hl as [Ht Hne]. apply bool_decide_eq_true in Hne.
    destruct (rooms σ !! board_of σ c) as [prev|] eqn:HA; cbn.
    + rewrite lookup_insert_eq. cbn. rewrite lookup_insert_eq. cbn.
      case_bool_decide; cbn.
      * rewrite delete_insert_eq, !lookup_delete_ne by done.
        destruct (rooms σ !! jp_boardId p) eqn:HB; cbn;
          rewrite ?lookup_insert_eq, ?insert_insert_eq; cbn; reflexivity.
      * rewrite !lookup_insert_ne by done.
        destruct (rooms σ !! jp_boardId p) eqn:HB; cbn;
          rewrite ?lookup_insert_eq, ?insert_insert_eq; cbn; reflexivity.
    + destruct (rooms σ !! jp_boardId p) eqn:HB; cbn;
        rewrite ?lookup_insert_eq, ?insert_insert_eq; cbn; reflexivity.
  - destruct (rooms σ !! jp_boardId p) eqn:HB; cbn;
      rewrite ?lookup_insert_eq, ?insert_insert_eq; cbn; reflexivity.
Qed.

Lemma canvas_sync_exec c p σ :
  exec (canvas_sync c p) σ =
    (synced_state p σ,
     [mkEmit (in_room (joined σ) (sp_boardId p) ∖ {[ c ]})
        (MCanvasSync (sp_canvasJSON p))]).
Proof.
  unfold synced_state, room_at. run_handler.
  destruct (rooms σ !! sp_boardId p) eqn:HB; cbn;
    rewrite ?insert_insert_eq; reflexivity.
Qed.

Lemma cursor_move_exec c p σ :
  exec (cursor_move c p) σ =
    (σ, [mkEmit (in_room (joined σ) (cp_boardId p) ∖ {[ c ]})
           (MCursorMove (cp_userId p) (cp_x p) (cp_y p))]).
Proof. reflexivity. Qed.

Lemma ping_exec c f σ :
  exec (ping c f) σ = (σ, if f then [mkEmit {[ c ]} MAck] else []).
Proof. by destruct f. Qed.

Lemma disconnect_exec c σ :
  exec (socket_close c;; disconnect c) σ =
    (closed_state c σ, closed_announce c σ).
Proof.
  unfold closed_state, closed_announce, drop_member. run_handler.
  unfold board_of. cbn. set (A := default VNull (myBoardId σ !! c)).
  destruct (truthy A) eqn:Ht; cbn; [|reflexivity].
  destruct (rooms σ !! A) as [room|] eqn:HA; cbn; [|reflexivity].
  destruct (map_get c (users room)) as [u|] eqn:Hu; cbn;
    repeat (rewrite lookup_insert_eq; cbn);
    case_bool_decide; cbn; rewrite ?delete_insert_eq; reflexivity.
Qed.

Lemma handle_join c p σ :
  handle c (JoinRoom (Some p)) σ = Some (exec (join_room c p) σ).
Proof. reflexivity. Qed.

(** *** How each step changes what the registry reports *)

Lemma drop_member_lookup_ne c A rs B : B ≠ A → drop_member c A rs !! B = rs !! B.
Proof.
  intros Hne. unfold drop_member. destruct (rs !! A); [|done].
  case_bool_decide; [by rewrite lookup_delete_ne | by rewrite lookup_insert_ne].
Qed.

Lemma drop_member_users c A rs :
  users (room_at (drop_member c A rs) A) = map_delete c (users (room_at rs A)).
Proof.
  unfold drop_member, room_at. destruct (rs !! A) as [prev|] eqn:HA; cbn.
  - case_bool_decide as Hlen.
    + rewrite lookup_delete_eq. cbn. symmetry. by apply nil_length_inv.
    + by rewrite lookup_insert_eq.
  - by rewrite HA.
Qed.

Lemma drop_member_absent c A rs : rs !! A = None → drop_member c A rs = rs.
Proof. intros H. unfold drop_member. by rewrite H. Qed.

Lemma drop_member_sole c A rs :
  map_keys (users (room_at rs A)) = [c] → drop_member c A rs !! A = None.
Proof.
  unfold drop_member, room_at. destruct (rs !! A) as [prev|] eqn:HA; cbn; [|done].
  intros H. rewrite (map_delete_sole _ _ H). cbn. apply lookup_delete_eq.
Qed.

Lemma members_joined c p σ B' :
  members (joined_state c p σ) B' =
    if decide (B' = jp_boardId p) then
      map_set c (identity p) (members σ B')
    else if switches σ c (jp_boardId p) && bool_decide (B' = board_of σ c) then
      map_delete c (members σ B')
    else members σ B'.
Proof.
  unfold members, joined_state, switches. cbn.
  destruct (decide (B' = jp_boardId p)) as [->|Hne].
  - unfold room_at at 1. rewrite lookup_insert_eq. cbn.
    destruct (truthy (board_of σ c) && bool_decide (board_of σ c ≠ jp_boardId p))
      eqn:Hl; [|done].
    apply andb_prop in Hl as [_ Hd%bool_decide_eq_true].
    unfold room_at. by rewrite drop_member_lookup_ne.
  - unfold room_at at 1. rewrite lookup_insert_ne by done.
    fold (room_at (if truthy (board_of σ c) &&
                      bool_decide (board_of σ c ≠ jp_boardId p)
                   then drop_member c (board_of σ c) (rooms σ)
                   else rooms σ) B').
    destruct (truthy (board_of σ c) && bool_decide (board_of σ c ≠ jp_boardId p));
      cbn; [|done].
    case_bool_decide as HA; [subst B'; apply drop_member_users|].
    unfold room_at. by rewrite drop_member_lookup_ne.
Qed.

Lemma snapshot_joined_target c p σ :
  snapshot (joined_state c p σ) (jp_boardId p) = snapshot σ (jp_boardId p).
Proof.
  unfold snapshot, joined_state. cbn.
  unfold room_at at 1. rewrite lookup_insert_eq. cbn.
  unfold switches.
  destruct (truthy (board_of σ c) && bool_decide (board_of σ c ≠ jp_boardId p))
    eqn:Hl; [|done].
  apply andb_prop in Hl as [_ Hd%bool_decide_eq_true].
  unfold room_at. by rewrite drop_member_lookup_ne.
Qed.

Lemma members_synced p σ B' : members (synced_state p σ) B' = members σ B'.
Proof.
  unfold members, synced_state, room_at. cbn.
  destruct (decide (B' = sp_boardId p)) as [->|Hne].
  - by rewrite lookup_insert_eq.
  - by rewrite lookup_insert_ne.
Qed.

Lemma snapshot_synced p σ B' :
  snapshot (synced_state p σ) B' =
    if decide (sp_boardId p = B') then sp_canvasJSON p else snapshot σ B'.
Proof.
  unfold snapshot, synced_state, room_at. cbn. case_decide as HB.
  - subst. by rewrite lookup_insert_eq.
  - by rewrite lookup_insert_ne.
Qed.

Lemma members_closed c σ B' :
  members (closed_state c σ) B' =
    if truthy (board_of σ c) && bool_decide (B' = board_of σ c) then
      map_delete c (members σ B')
    else members σ B'.
Proof.
  unfold members, closed_state. cbn.
  destruct (truthy (board_of σ c)) eqn:Ht; cbn; [|done].
  destruct (decide (B' = board_of σ c)) as [->|HA].
  - rewrite (bool_decide_eq_true_2 (board_of σ c = board_of σ c)) by done.
    case_bool_decide as Hr; [apply drop_member_users|].
    unfold room_at. destruct (rooms σ !! board_of σ c) eqn:Hl; [|done].
    by destruct Hr.
  - rewrite (bool_decide_eq_false_2 (B' = board_of σ c)) by done.
    case_bool_decide; [|done]. unfold room_at. by rewrite drop_member_lookup_ne.
Qed.

Lemma board_of_joined c p σ c' :
  board_of (joined_state c p σ) c' =
    if decide (c = c') then jp_boardId p else board_of σ c'.
Proof.
  unfold board_of, joined_state. cbn. case_decide.
  - subst. by rewrite lookup_insert_eq.
  - by rewrite lookup_insert_ne.
Qed.

Lemma board_of_closed c σ c' : c ≠ c' → board_of (closed_state c σ) c' = board_of σ c'.
Proof.
  intros Hne. unfold board_of at 1, closed_state. cbn.
  destruct (truthy (board_of σ c) && _); [|done].
  by rewrite lookup_insert_ne.
Qed.

(** *** Reachable states are consistent *)

Lemma elem_of_joined_state c p σ B' c' :
  (B', c') ∈ joined (joined_state c p σ) ↔
    (B' = jp_boardId p ∧ c' = c) ∨
    ((B', c') ∈ joined σ ∧
     ¬ (switches σ c (jp_boardId p) = true ∧ B' = board_of σ c ∧ c' = c)).
Proof.
  unfold joined_state. cbn.
  destruct (switches σ c (jp_boardId p)).
  - rewrite elem_of_union, elem_of_singleton, elem_of_difference,
      elem_of_singleton.
    split.
    + intros [[= -> ->]|[H Hn]]; [by left|]. right. split; [done|].
      intros (_ & -> & ->). by apply Hn.
    + intros [[-> ->]|[H Hn]]; [by left|]. right. split; [done|].
      intros [= -> ->]. by apply Hn.
  - rewrite elem_of_union, elem_of_singleton. split.
    + intros [[= -> ->]|H]; [by left|]. right. split; [done|]. by intros [? _].
    + intros [[-> ->]|[H _]]; [by left | by right].
Qed.

Lemma elem_of_closed_joined c σ B' c' :
  (B', c') ∈ joined (closed_state c σ) ↔ (B', c') ∈ joined σ ∧ c' ≠ c.
Proof. unfold closed_state. cbn. rewrite elem_of_filter. cbn. tauto. Qed.

Lemma switches_spec σ c B :
  switches σ c B = true ↔ truthy (board_of σ c) = true ∧ board_of σ c ≠ B.
Proof.
  unfold switches. rewrite andb_true_iff, bool_decide_eq_true. tauto.
Qed.

Lemma consistent_initial : consistent initial.
Proof.
  split; unfold initial, members, room_at; cbn; intros B c.
  - by intros ?%not_elem_of_empty.
  - by intros ?%not_elem_of_empty.
  - rewrite lookup_empty. cbn. by intros ?%elem_of_nil.
  - rewrite lookup_empty. cbn. by intros _ ?%elem_of_nil.
Qed.

Lemma consistent_joined c p σ :
  consistent σ → c ∉ closed σ → consistent (joined_state c p σ).
Proof.
  intros Hσ Hopen. split; intros B' c'.
  - rewrite elem_of_joined_state, members_joined.
    intros [[-> ->]|[H Hn]].
    + rewrite decide_True by done. apply map_keys_set. by left.
    + pose proof (joined_member _ Hσ _ _ H) as Hm. case_decide.
      { apply map_keys_set. by right. }
      destruct (switches σ c (jp_boardId p)) eqn:Hsw; cbn; [|done].
      case_bool_decide as HA; [|done].
      apply map_keys_delete. split; [|done]. intros ->. by apply Hn.
  - rewrite elem_of_joined_state. intros [[-> ->]|[H _]]; cbn; [done|].
    by eapply joined_open.
  - rewrite elem_of_joined_state, members_joined. intros Hm Hc.
    destruct (decide (c' = c)) as [->|Hne].
    + case_decide as HB; [by left|]. right.
      destruct (switches σ c (jp_boardId p)) eqn:Hsw; cbn in Hm.
      * case_bool_decide as HA.
        { by apply map_keys_delete in Hm as [? _]. }
        split; [by eapply member_joined|]. by intros (_ & ? & _).
      * split; [by eapply member_joined|]. by intros [? _].
    + right. split; [|by intros (_ & _ & ?)].
      eapply member_joined; [done| |done].
      case_decide; [by apply map_keys_set in Hm as [?|?]|].
      destruct (switches σ c (jp_boardId p) && bool_decide _); [|done].
      by apply map_keys_delete in Hm as [_ ?].
  - rewrite board_of_joined, members_joined. intros Ht Hm.
    destruct (decide (c = c')) as [<-|Hne].
    + case_decide as HB; [done|]. exfalso.
      destruct (switches σ c (jp_boardId p)) eqn:Hsw; cbn in Hm.
      * case_bool_decide as HA.
        { by apply map_keys_delete in Hm as [? _]. }
        apply HA. symmetry. by eapply member_board.
      * pose proof (member_board _ Hσ _ _ Ht Hm) as Hb.
        assert (switches σ c (jp_boardId p) = true); [|congruence].
        apply switches_spec. rewrite Hb. done.
    + eapply member_board; [done..|].
      case_decide; [by apply map_keys_set in Hm as [?|?]|].
      destruct (switches σ c (jp_boardId p) && bool_decide _); [|done].
      by apply map_keys_delete in Hm as [_ ?].
Qed.

Lemma consistent_synced p σ : consistent σ → consistent (synced_state p σ).
Proof.
  intros Hσ. split; intros B' c'; rewrite ?members_synced; apply Hσ.
Qed.

Lemma members_closed_incl c σ B' c' :
  c' ∈ map_keys (members (closed_state c σ) B') →
  c' ∈ map_keys (members σ B').
Proof.
  rewrite members_closed. destruct (truthy _ && bool_decide _); [|done].
  by intros [_ ?]%map_keys_delete.
Qed.

Lemma consistent_closed c σ : consistent σ → consistent (closed_state c σ).
Proof.
  intros Hσ. split; intros B' c'.
  - rewrite elem_of_closed_joined, members_closed. intros [H Hne].
    pose proof (joined_member _ Hσ _ _ H).
    destruct (truthy _ && bool_decide _); [|done].
    by apply map_keys_delete.
  - rewrite elem_of_closed_joined. intros [H Hne]. cbn.
    rewrite elem_of_union, elem_of_singleton.
    intros [?|?]; [done|]. by eapply joined_open.
  - intros Hm. cbn. rewrite elem_of_union, elem_of_singleton. intros Hc.
    apply elem_of_closed_joined. split; [|tauto].
    eapply member_joined; [done|by eapply members_closed_incl|tauto].
  - intros Ht Hm.
    pose proof (member_board _ Hσ _ _ Ht (members_closed_incl _ _ _ _ Hm)) as Hb.
    destruct (decide (c = c')) as [<-|Hne]; [|by rewrite board_of_closed].
    exfalso. rewrite members_closed, Hb, Ht in Hm. cbn in Hm.
    rewrite bool_decide_eq_true_2 in Hm by done.
    by apply map_keys_delete in Hm as [? _].
Qed.

Lemma handle_consistent c e σ σ' out :
  consistent σ → c ∉ closed σ → handle c e σ = Some (σ', out) →
  consistent σ'.
Proof.
  intros Hσ Hc. destruct e as [[p|]|[p|]|[p|]|f|]; cbn -[exec]; try done.
  - rewrite join_room_exec. intros [= <- _]. by apply consistent_joined.
  - rewrite canvas_sync_exec. intros [= <- _]. by apply consistent_synced.
  - rewrite cursor_move_exec. by intros [= <- _].
  - rewrite ping_exec. by intros [= <- _].
  - rewrite disconnect_exec. intros [= <- _]. by apply consistent_closed.
Qed.

Lemma reachable_consistent σ : reachable σ → consistent σ.
Proof.
  induction 1; [apply consistent_initial | by eapply handle_consistent].
Qed.

(** In a reachable state the audience of a room is exactly its members
    whose connection is still open. *)
Lemma audience_members σ B c :
  reachable σ →
  c ∈ in_room (joined σ) B ↔ c ∈ map_keys (members σ B) ∧ c ∉ closed σ.
Proof.
  intros Hσ%reachable_consistent. rewrite elem_of_in_room. split.
  - intros H. split; [by eapply joined_member | by eapply joined_open].
  - intros [? ?]. by eapply member_joined.
Qed.


Lemma reachable_synced c p σ :
  reachable σ → c ∉ closed σ → reachable (synced_state p σ).
Proof.
  intros Hσ Hc. eapply (reach_step σ c (CanvasSync (Some p))); [done..|].
  cbn -[exec]. rewrite canvas_sync_exec. reflexivity.
Qed.

Lemma reachable_closed c σ :
  reachable σ → c ∉ closed σ → reachable (closed_state c σ).
Proof.
  intros Hσ Hc. eapply (reach_step σ c Disconnect); [done..|].
  cbn -[exec]. rewrite disconnect_exec. reflexivity.
Qed.

(** *** What a connection receives *)

Lemma inbox_app c o1 o2 : inbox c (o1 ++ o2) = inbox c o1 ++ inbox c o2.
Proof. unfold inbox. by rewrite filter_app, fmap_app. Qed.

Lemma inbox_cons c e o :
  inbox c (e :: o) =
    if decide (c ∈ target e) then msg e :: inbox c o else inbox c o.
Proof. unfold inbox. cbn. by case_decide. Qed.

Lemma inbox_left_announce c B σ : inbox c (left_announce c B σ) = [].
Proof.
  unfold left_announce. destruct (switches σ c B); [|done].
  destruct (rooms σ !! board_of σ c); [|done].
  rewrite inbox_cons, decide_False; [done|]. cbn.
  rewrite elem_of_in_room, elem_of_difference, elem_of_singleton. tauto.
Qed.

Lemma joined_state_self c p σ : (jp_boardId p, c) ∈ joined (joined_state c p σ).
Proof. apply elem_of_joined_state. by left. Qed.

Lemma members_joined_target c p σ :
  members (joined_state c p σ) (jp_boardId p) =
    map_set c (identity p) (members σ (jp_boardId p)).
Proof. by rewrite members_joined, decide_True. Qed.

(** The joiner receives the room state and then the user list, nothing
    else. *)
Lemma inbox_join c p σ :
  inbox c (exec (join_room c p) σ).2 =
    [MRoomState (snapshot σ (jp_boardId p))
       (map_values (map_delete c (members σ (jp_boardId p))));
     MUsersUpdate (map_values (map_set c (identity p) (members σ (jp_boardId p))))].
Proof.
  rewrite join_room_exec. cbn -[joined_state inbox].
  rewrite inbox_app, inbox_left_announce, !inbox_cons. cbn -[joined_state].
  rewrite decide_True by by apply elem_of_singleton.
  rewrite decide_True by apply elem_of_in_room, joined_state_self.
  rewrite snapshot_joined_target, members_joined_target.
  fold (map_delete c (map_set c (identity p) (members σ (jp_boardId p)))).
  by rewrite map_delete_set.
Qed.

(** ** The claims on the relay *)



Lemma drop_member_canvas c A rs B room :
  drop_member c A rs !! B = Some room →
  canvasJSON room = canvasJSON (room_at rs B).
Proof.
  unfold drop_member, room_at.
  destruct (rs !! A) as [prev|] eqn:HA; [|by intros ->].
  case_bool_decide.
  - destruct (decide (B = A)) as [->|Hne].
    + by rewrite lookup_delete_eq.
    + rewrite lookup_delete_ne by done. by intros ->.
  - destruct (decide (B = A)) as [->|Hne].
    + rewrite lookup_insert_eq, HA. by intros [= <-].
    + rewrite lookup_insert_ne by done. by intros ->.
Qed.

(** Only a canvas-sync for board [B], or the deletion of its room, changes
    the snapshot of [B]. *)
Lemma snapshot_step c e σ σ' out B :
  handle c e σ = Some (σ', out) →
  match e with
  | CanvasSync (Some p) =>
      snapshot σ' B =
        if decide (sp_boardId p = B) then sp_canvasJSON p else snapshot σ B
  | _ => is_Some (rooms σ' !! B) → snapshot σ' B = snapshot σ B
  end.
Proof.
  destruct e as [[p|]|[p|]|[p|]|f|]; cbn -[exec]; try done.
  - rewrite join_room_exec. intros [= <- _] Hroom.
    destruct (decide (B = jp_boardId p)) as [->|Hne];
      [apply snapshot_joined_target|].
    unfold snapshot at 1. unfold room_at. cbn in *.
    rewrite lookup_insert_ne in * by done.
    destruct (switches σ c (jp_boardId p)); [|done].
    destruct Hroom as [room Hroom]. rewrite Hroom. cbn.
    by eapply drop_member_canvas.
  - rewrite canvas_sync_exec. intros [= <- _]. apply snapshot_synced.
  - rewrite cursor_move_exec. by intros [= <- _].
  - rewrite ping_exec. by intros [= <- _].
  - rewrite disconnect_exec. intros [= <- _] Hroom.
    unfold snapshot at 1. unfold room_at. cbn in *.
    destruct (truthy (board_of σ c) && _); [|done].
    destruct Hroom as [room Hroom]. rewrite Hroom. cbn.
    by eapply drop_member_canvas.
Qed.

Lemma run_syncs σ syncs :
  ∃ σ' out,
    run (sync_events syncs) σ = Some (σ', out) ∧
    ∀ B, snapshot σ' B = default (snapshot σ B) (last_sync B syncs).
Proof.
  revert σ. induction syncs as [|[c0 p0] rest IH]; intros σ.
  - by exists σ, [].
  - destruct (IH (synced_state p0 σ)) as (σ' & out & Hrun & Hsnap).
    eexists σ', _. split.
    + cbn -[exec]. rewrite canvas_sync_exec. cbn.
      fold (sync_events rest). rewrite Hrun. reflexivity.
    + intros B. rewrite Hsnap, snapshot_synced. cbn.
      destruct (last_sync B rest); [done|]. by case_decide.
Qed.

(** C3. After any sequence of canvas-sync events, from any connections
    and for any boards, a connection that joins board [B] receives one
    room-state, whose canvasJSON is the payload of the last canvas-sync
    for [B] in the sequence; with none in the sequence it is what the room
    held before, which is [null] for a room that did not exist yet. *)
Theorem snapshot_correctness σ syncs c p :
  let B := jp_boardId p in
  ∃ σ1 out1 σ2 out2,
    run (sync_events syncs) σ = Some (σ1, out1) ∧
    handle c (JoinRoom (Some p)) σ1 = Some (σ2, out2) ∧
    room_states (inbox c out2) =
      [default (snapshot σ B) (last_sync B syncs)] ∧
    (rooms σ !! B = None → last_sync B syncs = None →
     room_states (inbox c out2) = [VNull]).
Proof.
  intros B. destruct (run_syncs σ syncs) as (σ1 & out1 & Hrun & Hsnap).
  exists σ1, out1, (exec (join_room c p) σ1).1, (exec (join_room c p) σ1).2.
  assert (room_states (inbox c (exec (join_room c p) σ1).2) =
            [default (snapshot σ B) (last_sync B syncs)]) as Hrs.
  { rewrite inbox_join. cbn. by rewrite Hsnap. }
  split_and!; [done|by rewrite handle_join; destruct (exec _ _)|done|].
  intros Habs Hnone. rewrite Hrs, Hnone. cbn.
  unfold snapshot, room_at. by rewrite Habs.
Qed.

(** *** Instances *)

Ltac by_evaluation := apply (bool_decide_unpack _); vm_compute; exact I.

Lemma run_reachable evs σ σ' out :
  reachable σ → from_open evs σ = true → run evs σ = Some (σ', out) →
  reachable σ'.
Proof.
  revert σ out. induction evs as [|[c e] evs IH]; intros σ out Hσ; cbn.
  - by intros _ [= <- _].
  - intros [Hc Hrest]%andb_prop. apply bool_decide_eq_true in Hc.
    destruct (handle c e σ) as [[σ1 out1]|] eqn:Hstep; [|done]. cbn.
    destruct (run evs σ1) as [[σ2 out2]|] eqn:Hrun; [|done]. cbn.
    intros [= <- _]. eapply IH; [|done..]. by eapply reach_step.
Qed.

Lemma state_after_reachable evs :
  from_open evs initial = true → reachable (state_after evs).
Proof.
  intros Hopen. unfold state_after.
  destruct (run evs initial) as [[σ out]|] eqn:Hrun; [|apply reach_initial].
  eapply run_reachable; [apply reach_initial|done..].
Qed.

Lemma reachable_two_peers : reachable two_peers.
Proof. apply state_after_reachable. vm_compute. reflexivity. Qed.

(** The scenario of the specification: X joins "abc123", Y joins it, X
    sends a snapshot, Y disconnects. What each of them is sent, in order. *)
Example shared_board_scenario :
  let evs := [("X", JoinRoom (Some alice)); ("Y", JoinRoom (Some bob));
              ("X", CanvasSync (Some (mkSync (VStr "abc123") (VStr "{shapes:[...]}"))));
              ("Y", Disconnect)] in
  ∃ σ out,
    run evs initial = Some (σ, out) ∧
    inbox "X" out =
      [MRoomState VNull []; MUsersUpdate [identity alice];
       MUsersUpdate [identity alice; identity bob];
       MUserLeft (VStr "u-y"); MUsersUpdate [identity alice]] ∧
    inbox "Y" out =
      [MRoomState VNull [identity alice];
       MUsersUpdate [identity alice; identity bob];
       MCanvasSync (VStr "{shapes:[...]}")].
Proof.
  eexists _, _. split; [vm_compute; reflexivity|].
  split; vm_compute; reflexivity.
Qed.



(** *** Rooms without members *)

(** C4, at the input where the registry invariant breaks: on the relay as
    it starts, a canvas-sync for a board nobody joined makes [getRoom]
    create the room, and the registry then holds a room whose members map
    is empty. Nothing deletes it until somebody joins and leaves. *)
Theorem canvas_sync_leaves_empty_room :
  ∃ σ' out,
    handle "X" (CanvasSync (Some (mkSync (VStr "nobody") (VStr "{}")))) initial =
      Some (σ', out) ∧
    reachable σ' ∧
    rooms σ' !! VStr "nobody" = Some {| canvasJSON := VStr "{}"; users := [] |} ∧
    members σ' (VStr "nobody") = [] ∧
    ¬ populated σ'.
Proof.
  exists (state_after [("X", CanvasSync (Some (mkSync (VStr "nobody") (VStr "{}"))))]).
  eexists. split; [vm_compute; reflexivity|].
  assert (rooms (state_after [("X", CanvasSync (Some (mkSync (VStr "nobody")
                                                              (VStr "{}"))))])
            !! VStr "nobody" = Some {| canvasJSON := VStr "{}"; users := [] |})
    as Hroom by (vm_compute; reflexivity).
  split_and!.
  - apply state_after_reachable. vm_compute. reflexivity.
  - exact Hroom.
  - vm_compute. reflexivity.
  - intros Hpop. by apply (Hpop _ _ Hroom).
Qed.

Lemma drop_member_populated c A rs :
  (∀ B room, rs !! B = Some room → users room ≠ []) →
  ∀ B room, drop_member c A rs !! B = Some room → users room ≠ [].
Proof.
  intros Hrs B room. unfold drop_member.
  destruct (rs !! A) as [prev|] eqn:HA; [|by apply Hrs].
  case_bool_decide as Hlen.
  - destruct (decide (B = A)) as [->|Hne].
    + by rewrite lookup_delete_eq.
    + rewrite lookup_delete_ne by done. by apply Hrs.
  - destruct (decide (B = A)) as [->|Hne].
    + rewrite lookup_insert_eq. intros [= <-]. cbn.
      intros Hnil. apply Hlen. by rewrite Hnil.
    + rewrite lookup_insert_ne by done. by apply Hrs.
Qed.

Lemma map_set_nonempty k v m : map_set k v m ≠ [].
Proof. destruct m as [|[k0 v0] m]; cbn; [done|]. by case_decide. Qed.

(** Apart from such a canvas-sync no event leaves a room without members
    behind: joins create rooms with their first member, and every removal
    of a member is followed by [cleanEmptyRoom]. *)
Lemma populated_step c e σ σ' out :
  populated σ → ¬ stray σ e → handle c e σ = Some (σ', out) → populated σ'.
Proof.
  intros Hσ Hstray.
  destruct e as [[p|]|[p|]|[p|]|f|]; cbn -[exec] in *; try done.
  - rewrite join_room_exec. intros [= <- _] B room. cbn.
    destruct (decide (B = jp_boardId p)) as [->|Hne].
    + rewrite lookup_insert_eq. intros [= <-]. cbn. apply map_set_nonempty.
    + rewrite lookup_insert_ne by done.
      destruct (switches σ c (jp_boardId p)); [|by apply Hσ].
      by apply drop_member_populated.
  - rewrite canvas_sync_exec. intros [= <- _] B room. cbn.
    destruct (decide (B = sp_boardId p)) as [->|Hne].
    + rewrite lookup_insert_eq. intros [= <-]. cbn. unfold room_at.
      destruct (rooms σ !! sp_boardId p) as [r|] eqn:Hr; [|done].
      cbn. by eapply Hσ.
    + rewrite lookup_insert_ne by done. by apply Hσ.
  - rewrite cursor_move_exec. by intros [= <- _].
  - rewrite ping_exec. by intros [= <- _].
  - rewrite disconnect_exec. intros [= <- _] B room. cbn.
    destruct (truthy (board_of σ c) && _); [|by apply Hσ].
    by apply drop_member_populated.
Qed.

Lemma reachable_lone_peer : reachable lone_peer.
Proof. apply state_after_reachable. vm_compute. reflexivity. Qed.

(** C5, at the input where the data event is not a no-op: X was the only
    member of "abc123" and has disconnected, so the registry has no such
    room; a canvas-sync for that board arriving from Y then creates the
    room again, without members and holding the payload. *)
Theorem late_canvas_sync_creates_room :
  ∃ σ out σ' out',
    run (lone_peer_events ++ [("X", Disconnect)]) initial = Some (σ, out) ∧
    reachable σ ∧
    rooms σ !! VStr "abc123" = None ∧
    handle "Y" (CanvasSync (Some first_snapshot)) σ = Some (σ', out') ∧
    rooms σ' !! VStr "abc123" =
      Some {| canvasJSON := VStr "{shapes:[]}"; users := [] |} ∧
    out' = [mkEmit ∅ (MCanvasSync (VStr "{shapes:[]}"))].
Proof.
  exists (state_after (lone_peer_events ++ [("X", Disconnect)])).
  eexists _, _, _. split; [vm_compute; reflexivity|].
  split_and!.
  - apply state_after_reachable. vm_compute. reflexivity.
  - vm_compute. reflexivity.
  - vm_compute. reflexivity.
  - vm_compute. reflexivity.
  - vm_compute. reflexivity.
Qed.

(** The part of C5 that the code keeps: a data event for a board without
    a room reaches nobody, and a cursor-move changes nothing at all. *)
Lemma unknown_board_reaches_nobody σ B :
  reachable σ → rooms σ !! B = None → in_room (joined σ) B = ∅.
Proof.
  intros Hσ Habs. apply set_eq. intros c. rewrite audience_members by done.
  unfold members, room_at. rewrite Habs. cbn.
  rewrite elem_of_nil. split; [tauto | by intros ?%not_elem_of_empty].
Qed.

Lemma cursor_move_unknown_board σ c p :
  reachable σ → rooms σ !! cp_boardId p = None →
  handle c (CursorMove (Some p)) σ =
    Some (σ, [mkEmit ∅ (MCursorMove (cp_userId p) (cp_x p) (cp_y p))]).
Proof.
  intros Hσ Habs. cbn -[exec]. rewrite cursor_move_exec.
  rewrite unknown_board_reaches_nobody by done.
  by rewrite empty_difference_L.
Qed.

(** *** Cleanup when the last member disconnects *)

Lemma drop_member_keeps_absent c A rs B :
  rs !! B = None → drop_member c A rs !! B = None.
Proof.
  intros Habs. destruct (decide (B = A)) as [->|Hne].
  - by rewrite drop_member_absent.
  - by rewrite drop_member_lookup_ne.
Qed.

Lemma untouched_stays_absent B c e σ σ' out :
  rooms σ !! B = None → ¬ touches B e → handle c e σ = Some (σ', out) →
  rooms σ' !! B = None.
Proof.
  intros Habs Hnt. destruct e as [[p|]|[p|]|[p|]|f|]; cbn -[exec] in *; try done.
  - rewrite join_room_exec. intros [= <- _]. cbn.
    rewrite lookup_insert_ne by done.
    destruct (switches σ c (jp_boardId p)); [|done].
    by apply drop_member_keeps_absent.
  - rewrite canvas_sync_exec. intros [= <- _]. cbn.
    by rewrite lookup_insert_ne.
  - rewrite cursor_move_exec. by intros [= <- _].
  - rewrite ping_exec. by intros [= <- _].
  - rewrite disconnect_exec. intros [= <- _]. cbn.
    destruct (truthy (board_of σ c) && _); [|done].
    by apply drop_member_keeps_absent.
Qed.

Lemma run_untouched_stays_absent B evs σ σ' out :
  rooms σ !! B = None → Forall (λ ce, ¬ touches B ce.2) evs →
  run evs σ = Some (σ', out) → rooms σ' !! B = None.
Proof.
  revert σ out. induction evs as [|[c e] evs IH]; intros σ out Habs Hnt; cbn.
  - by intros [= <- _].
  - apply Forall_cons in Hnt as [Hnt1 Hnt].
    destruct (handle c e σ) as [[σ1 out1]|] eqn:Hstep; cbn; [|done].
    destruct (run evs σ1) as [[σ2 out2]|] eqn:Hrun; cbn; [|done].
    intros [= <- _]. eapply IH; [|done..].
    by eapply untouched_stays_absent.
Qed.

Lemma join_fresh_room c p σ :
  rooms σ !! jp_boardId p = None →
  snapshot (joined_state c p σ) (jp_boardId p) = VNull ∧
  members (joined_state c p σ) (jp_boardId p) = [(c, identity p)] ∧
  inbox c (exec (join_room c p) σ).2 =
    [MRoomState VNull []; MUsersUpdate [identity p]].
Proof.
  intros Habs.
  assert (snapshot σ (jp_boardId p) = VNull) as Hs
    by (unfold snapshot, room_at; by rewrite Habs).
  assert (members σ (jp_boardId p) = []) as Hm
    by (unfold members, room_at; by rewrite Habs).
  rewrite snapshot_joined_target, members_joined_target, inbox_join, Hs, Hm.
  done.
Qed.

(** C6, as the code has it. When the only member of a room whose board id
    is truthy disconnects, the registry has no room for that board any
    more; and after any further events that name that board in no
    join-room and no canvas-sync, a join to it creates the room anew: the
    joiner receives a room-state with a null snapshot and no peers, and is
    its only member. *)
Theorem empty_room_cleanup σ c B :
  reachable σ → c ∉ closed σ → truthy B = true →
  map_keys (members σ B) = [c] →
  ∃ σ1 out1,
    handle c Disconnect σ = Some (σ1, out1) ∧
    rooms σ1 !! B = None ∧
    ∀ evs σ2 out2 c' p,
      Forall (λ ce, ¬ touches B ce.2) evs →
      run evs σ1 = Some (σ2, out2) →
      jp_boardId p = B →
      rooms σ2 !! B = None ∧
      ∃ σ3 out3,
        handle c' (JoinRoom (Some p)) σ2 = Some (σ3, out3) ∧
        snapshot σ3 B = VNull ∧
        members σ3 B = [(c', identity p)] ∧
        inbox c' out3 = [MRoomState VNull []; MUsersUpdate [identity p]].
Proof.
  intros Hσ Hc Ht Hsole.
  assert (board_of σ c = B) as Hb.
  { eapply member_board; [by apply reachable_consistent|done|].
    rewrite Hsole. apply list_elem_of_singleton. done. }
  assert (is_Some (rooms σ !! B)) as Hroom.
  { unfold members, room_at in Hsole. by destruct (rooms σ !! B). }
  assert (rooms (closed_state c σ) !! B = None) as Hgone.
  { unfold closed_state. cbn. rewrite Hb, Ht. cbn.
    rewrite bool_decide_eq_true_2 by done. by apply drop_member_sole. }
  exists (closed_state c σ), (closed_announce c σ). split_and!.
  - cbn -[exec]. by rewrite disconnect_exec.
  - done.
  - intros evs σ2 out2 c' p Hnt Hrun <-.
    pose proof (run_untouched_stays_absent _ _ _ _ _ Hgone Hnt Hrun) as Habs.
    split; [done|].
    destruct (join_fresh_room c' p σ2 Habs) as (Hs & Hm & Hin).
    exists (joined_state c' p σ2), (exec (join_room c' p) σ2).2.
    split_and!; [|done..].
    rewrite handle_join, join_room_exec. reflexivity.
Qed.

(** C6 at an instance: X leaves "abc123" empty, Y moves a cursor and pings,
    then Z joins. *)
Lemma empty_room_cleanup_witness :
  reachable lone_peer ∧ ("X" ∉ closed lone_peer) ∧
  truthy (VStr "abc123") = true ∧
  map_keys (members lone_peer (VStr "abc123")) = ["X"] ∧
  ∃ σ1 out1 σ2 out2 σ3 out3,
    handle "X" Disconnect lone_peer = Some (σ1, out1) ∧
    rooms σ1 !! VStr "abc123" = None ∧
    run bystander_events σ1 = Some (σ2, out2) ∧
    handle "Z" (JoinRoom (Some carol)) σ2 = Some (σ3, out3) ∧
    inbox "Z" out3 = [MRoomState VNull []; MUsersUpdate [identity carol]].
Proof.
  split; [exact reachable_lone_peer|].
  assert ("X" ∉ closed lone_peer) as Hopen by by_evaluation.
  assert (map_keys (members lone_peer (VStr "abc123")) = ["X"]) as Hsole
    by (vm_compute; reflexivity).
  split_and!; [done|reflexivity|done|].
  destruct (empty_room_cleanup lone_peer "X" (VStr "abc123")
              reachable_lone_peer Hopen eq_refl Hsole)
    as (σ1 & out1 & Hd & Hgone & Hlater).
  assert (∃ out2, run bystander_events σ1 = Some (σ1, out2)) as [out2 Hrun]
    by (eexists; reflexivity).
  destruct (Hlater bystander_events σ1 out2 "Z" carol
              ltac:(repeat constructor; cbn; tauto) Hrun eq_refl)
    as (_ & σ3 & out3 & Hj & _ & _ & Hin).
  by exists σ1, out1, σ1, out2, σ3, out3.
Defined.

(** Why the board id has to be truthy: the empty string reads as "not
    joined" in the disconnect handler, which returns before it removes
    anything, so the room keeps the entry of the closed connection. *)
Example empty_board_id_is_not_cleaned :
  let nameless := mkJoin (VStr "") (VStr "u-x") (VStr "Alex") (VStr "#F59E0B") in
  ∃ σ out,
    run [("X", JoinRoom (Some nameless)); ("X", Disconnect)] initial =
      Some (σ, out) ∧
    map_keys (members σ (VStr "")) = ["X"] ∧
    in_room (joined σ) (VStr "") = ∅.
Proof.
  eexists _, _. split; [vm_compute; reflexivity|].
  split; vm_compute; reflexivity.
Qed.

(** C6 as stated fails. After X has left "abc123" empty, (1) Y joins the
    board and sends a snapshot, and Z, joining next, receives that
    snapshot and not [null]; (2) Y, without joining, sends a canvas-sync
    for the board, and Z, joining next, receives the very snapshot the room
    held before it emptied. *)
Lemma stale_snapshot_counterexample :
  reachable lone_peer ∧ ("X" ∉ closed lone_peer) ∧
  map_keys (members lone_peer (VStr "abc123")) = ["X"] ∧
  snapshot lone_peer (VStr "abc123") = VStr "{shapes:[]}" ∧
  ∃ σ1 out1,
    handle "X" Disconnect lone_peer = Some (σ1, out1) ∧
    rooms σ1 !! VStr "abc123" = None ∧
    (∃ σ2 out2 σ3 out3,
       run [("Y", JoinRoom (Some bob));
            ("Y", CanvasSync (Some (mkSync (VStr "abc123") (VStr "{shapes:[2]}"))))]
         σ1 = Some (σ2, out2) ∧
       handle "Z" (JoinRoom (Some carol)) σ2 = Some (σ3, out3) ∧
       inbox "Z" out3 =
         [MRoomState (VStr "{shapes:[2]}") [identity bob];
          MUsersUpdate [identity bob; identity carol]]) ∧
    (∃ σ2 out2 σ3 out3,
       run [("Y", CanvasSync (Some first_snapshot))] σ1 = Some (σ2, out2) ∧
       handle "Z" (JoinRoom (Some carol)) σ2 = Some (σ3, out3) ∧
       inbox "Z" out3 =
         [MRoomState (VStr "{shapes:[]}") []; MUsersUpdate [identity carol]]).
Proof.
  split; [exact reachable_lone_peer|]. split; [by_evaluation|].
  split; [vm_compute; reflexivity|]. split; [vm_compute; reflexivity|].
  eexists _, _. split; [vm_compute; reflexivity|].
  split; [vm_compute; reflexivity|]. split.
  - eexists _, _, _, _. split; [vm_compute; reflexivity|].
    split; vm_compute; reflexivity.
  - eexists _, _, _, _. split; [vm_compute; reflexivity|].
    split; vm_compute; reflexivity.
Qed.

(** *** Joining the same board again *)

Lemma switches_same σ c B : board_of σ c = B → switches σ c B = false.
Proof.
  intros Hb. unfold switches. rewrite Hb.
  rewrite (bool_decide_eq_false_2 (B ≠ B)) by tauto. apply andb_false_r.
Qed.

(** A connection that is already in room [B] under the identity it sends
    gets the same state back from a join-room for [B]. *)
Lemma rejoin_same_board c p σ room :
  myBoardId σ !! c = Some (jp_boardId p) →
  (jp_boardId p, c) ∈ joined σ →
  rooms σ !! jp_boardId p = Some room →
  map_get c (users room) = Some (identity p) →
  joined_state c p σ = σ.
Proof.
  intros Hmine Hin Hroom Hid. unfold joined_state.
  rewrite switches_same by (unfold board_of; by rewrite Hmine).
  unfold room_at. rewrite Hroom. cbn. rewrite (map_set_id _ _ _ Hid).
  destruct σ as [rs j mine cl]. cbn in *. f_equal.
  - apply insert_id. by destruct room.
  - apply subseteq_union_1_L. by apply elem_of_subseteq_singleton.
  - by apply insert_id.
Qed.

(** C8. Processing the same join-room a second time on the same
    connection returns the relay state unchanged, so no member is removed
    and no room deleted, and emits only the two announcements: the
    room-state to the joiner and the users-update to the room. *)
Theorem duplicate_join_idempotent σ c p σ1 out1 :
  handle c (JoinRoom (Some p)) σ = Some (σ1, out1) →
  let B := jp_boardId p in
  handle c (JoinRoom (Some p)) σ1 =
    Some (σ1,
      [mkEmit {[ c ]}
         (MRoomState (snapshot σ1 B) (map_values (map_delete c (members σ1 B))));
       mkEmit (in_room (joined σ1) B) (MUsersUpdate (map_values (members σ1 B)))]) ∧
  map_get c (members σ1 B) = Some (identity p).
Proof.
  rewrite handle_join, join_room_exec. intros [= <- _] B.
  assert (map_get c (members (joined_state c p σ) B) = Some (identity p)) as Hid.
  { unfold B. rewrite members_joined_target. apply map_get_set. }
  split; [|done].
  assert (joined_state c p (joined_state c p σ) = joined_state c p σ) as Hsame.
  { eapply rejoin_same_board.
    - cbn. apply lookup_insert_eq.
    - apply joined_state_self.
    - cbn. apply lookup_insert_eq.
    - cbn. apply map_get_set. }
  rewrite handle_join, join_room_exec. cbn zeta. rewrite Hsame.
  unfold left_announce. rewrite switches_same by by rewrite board_of_joined, decide_True.
  reflexivity.
Qed.

(** C8 at an instance: X sends its join-room twice. *)
Lemma duplicate_join_idempotent_witness :
  let σ1 := state_after [("X", JoinRoom (Some alice))] in
  let announce := [mkEmit {[ "X" ]} (MRoomState VNull []);
                   mkEmit {[ "X" ]} (MUsersUpdate [identity alice])] in
  handle "X" (JoinRoom (Some alice)) initial = Some (σ1, announce) ∧
  handle "X" (JoinRoom (Some alice)) σ1 = Some (σ1, announce).
Proof.
  intros σ1 announce.
  assert (handle "X" (JoinRoom (Some alice)) initial = Some (σ1, announce))
    as Hfirst by (vm_compute; reflexivity).
  split; [exact Hfirst|].
  destruct (duplicate_join_idempotent initial "X" alice σ1 announce Hfirst)
    as [Hrun _].
  rewrite Hrun. vm_compute. reflexivity.
Defined.

(** *** Malformed events *)




End RelayProps.

(** ** The debounced broadcast *)

Module SyncProps.

Import Sync.

(** *** At most one pending timeout *)

Lemma clearTimeout_sole id d : clearTimeout id [(id, d)] = [].
Proof. unfold clearTimeout. cbn. by rewrite decide_False by tauto. Qed.

Lemma emitCanvasSync_timers st :
  tidy st → fabricRef st = true → isRemoteUpdateRef st = false →
  timers (emitCanvasSync st) = [(next_timer st, clock st + debounce_ms)] ∧
  syncTimerRef (emitCanvasSync st) = Some (next_timer st).
Proof.
  unfold tidy, emitCanvasSync. intros Ht -> ->. cbn. split; [|done].
  destruct (timers st) as [|[id d] [|? ?]] eqn:Hts; [| |done].
  - by destruct (syncTimerRef st).
  - rewrite Ht. by rewrite clearTimeout_sole.
Qed.

Lemma tidy_emitCanvasSync st : tidy st → tidy (emitCanvasSync st).
Proof.
  intros Ht. unfold emitCanvasSync.
  destruct (isRemoteUpdateRef st) eqn:Hr; [done|].
  destruct (fabricRef st) eqn:Hf; [|done]. cbn.
  destruct (emitCanvasSync_timers st Ht Hf Hr) as [Hts _].
  unfold emitCanvasSync in Hts. rewrite Hr, Hf in Hts. cbn in Hts.
  unfold tidy. cbn. by rewrite Hts.
Qed.

Lemma tidy_elapse ms st : tidy st → tidy (elapse ms st).
Proof.
  unfold tidy, elapse. intros Ht.
  destruct (timers st) as [|[id d] [|? ?]] eqn:Hts; [done| |done]. cbn.
  destruct (decide (d ≤ clock st + ms)).
  - by rewrite decide_False by tauto.
  - by rewrite decide_True by tauto.
Qed.

Lemma tidy_unmount st : tidy st → tidy (unmount st).
Proof.
  unfold tidy, unmount. intros Ht. cbn.
  destruct (timers st) as [|[id d] [|? ?]] eqn:Hts; [| |done].
  - by destruct (syncTimerRef st).
  - rewrite Ht. by rewrite clearTimeout_sole.
Qed.

Lemma tidy_step e st : tidy st → tidy (step e st).
Proof.
  intros Ht. destruct e as [json|ms| |json|]; cbn.
  - unfold mutation. cbn. destruct (isRemoteUpdateRef st); [done|].
    by apply tidy_emitCanvasSync.
  - by apply tidy_elapse.
  - unfold applyRemoteCanvas. by destruct (fabricRef st).
  - done.
  - by apply tidy_unmount.
Qed.

Lemma tidy_run evs st : tidy st → tidy (run evs st).
Proof.
  revert st. induction evs as [|e evs IH]; intros st Ht; [done|].
  cbn. by apply IH, tidy_step.
Qed.

Lemma tidy_mounted boardId json evs : tidy (run evs (mounted boardId json)).
Proof. by apply tidy_run. Qed.



(** *** One burst, one emission *)

Lemma mutation_arms st json :
  tidy st → fabricRef st = true → isRemoteUpdateRef st = false →
  armed (mutation json st) json ∧
  outbox (mutation json st) = outbox st ∧
  board (mutation json st) = board st.
Proof.
  intros Ht Hf Hr. unfold mutation. cbv zeta.
  set (st1 := mkClient _ _ _ _ _ _ _ _ _).
  assert (isRemoteUpdateRef st1 = false) as Hr1 by exact Hr.
  destruct (emitCanvasSync_timers st1 Ht Hf Hr1) as [Hts Href].
  rewrite Hr1. unfold armed. rewrite Hts, Href.
  unfold emitCanvasSync. rewrite Hr1. cbn. rewrite Hf. cbn.
  split_and!; try done. by exists (next_timer st).
Qed.




Lemma elapse_fires st json ms :
  armed st json → debounce_ms ≤ ms →
  outbox (elapse ms st) = outbox st ++ [(board st, json)] ∧
  timers (elapse ms st) = [] ∧
  syncTimerRef (elapse ms st) = None.
Proof.
  intros (_ & _ & Hfc & id & Hts & _) Hms.
  unfold elapse. rewrite Hts. cbn.
  destruct (decide (clock st + debounce_ms ≤ clock st + ms)); [|lia].
  rewrite decide_False by tauto. cbn. by rewrite Hfc.
Qed.



(** Echo suppression takes precedence over the debounce: while a received
    snapshot is being applied, the flag raised by [applyRemoteCanvas] makes
    [saveAfterAction] and [emitCanvasSync] return at once, so mutations
    observed then count as remote: they schedule nothing and nothing is
    emitted, neither 120 ms later nor after the snapshot has loaded. *)
Lemma burst_during_remote_update_is_suppressed :
  let st := run [RemoteSync; Mutation "{a}"; Elapse 40; Mutation "{a,b}"]
              (mounted "abc123" "{}") in
  fabricRef st = true ∧ isRemoteUpdateRef st = true ∧ fc st = "{a,b}" ∧
  timers st = [] ∧
  outbox (elapse 120 st) = [] ∧
  outbox (run [RemoteLoaded "{r}"; Elapse 120] st) = [].
Proof. by repeat split. Qed.

End SyncProps.

(** ** The board store *)

Module StoreProps.

Import Store.

Section ActiveUsers.

Context {number : Type}.

Local Abbreviation User := (@Store.User number) (only parsing).
Local Abbreviation action := (@Store.action number) (only parsing).
Local Abbreviation id := (@Store.id number) (only parsing).

Lemma ids_filter (P : User → Prop) `{∀ u, Decision (P u)} (l : list User) :
  NoDup (id <$> l) → NoDup (id <$> filter P l).
Proof.
  induction l as [|u l IH]; [done|]. rewrite fmap_cons, NoDup_cons.
  intros [Hnotin Hnd]. rewrite filter_cons. case_decide; [|by apply IH].
  rewrite fmap_cons. apply NoDup_cons. split; [|by apply IH].
  intros (v & Hid & [_ Hv]%list_elem_of_filter)%list_elem_of_fmap.
  apply Hnotin. apply list_elem_of_fmap. by exists v.
Qed.

Lemma addUser_unique user l : NoDup (id <$> l) → NoDup (id <$> addUser user l).
Proof.
  intros Hnd. unfold addUser. rewrite fmap_app. apply NoDup_app.
  split_and!.
  - by apply ids_filter.
  - intros i (v & -> & [Hne _]%list_elem_of_filter)%list_elem_of_fmap.
    cbn. rewrite list_elem_of_singleton. done.
  - cbn. apply NoDup_singleton.
Qed.

Lemma updateUserCursor_ids userId cx cy l :
  id <$> updateUserCursor userId cx cy l = id <$> l.
Proof.
  unfold updateUserCursor. rewrite <- list_fmap_compose.
  apply list_fmap_ext. intros _ u _. cbn. by case_decide.
Qed.

Lemma dispatch_unique a l : NoDup (id <$> l) → NoDup (id <$> dispatch a l).
Proof.
  intros Hnd. destruct a as [user|userId|userId cx cy]; cbn.
  - by apply addUser_unique.
  - by apply ids_filter.
  - by rewrite updateUserCursor_ids.
Qed.

Lemma foldl_dispatch_unique actions l :
  NoDup (id <$> l) →
  NoDup (id <$> foldl (λ users a, dispatch a users) l actions).
Proof.
  revert l. induction actions as [|a actions IH]; intros l Hnd; [done|].
  cbn. by apply IH, dispatch_unique.
Qed.

Lemma addUser_others user l :
  filter (λ u, id u ≠ id user) (addUser user l) =
    filter (λ u, id u ≠ id user) l.
Proof.
  unfold addUser. rewrite filter_app, list_filter_filter.
  rewrite filter_cons_False by (cbn; tauto).
  rewrite filter_nil, app_nil_r.
  apply list_filter_iff. tauto.
Qed.

Lemma removed_id_gone userId l :
  filter (λ u, id u = userId) (filter (λ u, id u ≠ userId) l) = [].
Proof.
  induction l as [|u l IH]; [done|]. rewrite (filter_cons (λ u, id u ≠ userId)).
  case_decide; [|done]. by rewrite filter_cons_False.
Qed.

Lemma addUser_entry user l :
  filter (λ u, id u = id user) (addUser user l) = [user].
Proof.
  unfold addUser. rewrite filter_app, removed_id_gone.
  by rewrite filter_cons_True.
Qed.

(** C10. Whatever addUser, removeUser and updateUserCursor actions the
    store has processed since it started empty, no two entries of
    activeUsers have the same id; and adding a user keeps the entries with
    other ids as they were, in order, and leaves exactly one entry with the
    user's id, the one added, at the end of the list. *)
Theorem active_users_unique actions :
  NoDup (id <$> after actions) ∧
  ∀ user,
    filter (λ u, id u ≠ id user) (addUser user (after actions)) =
      filter (λ u, id u ≠ id user) (after actions) ∧
    filter (λ u, id u = id user) (addUser user (after actions)) = [user] ∧
    List.last (addUser user (after actions)) user = user.
Proof.
  split.
  - apply foldl_dispatch_unique. cbn. apply NoDup_nil_2.
  - intros user. split_and!.
    + apply addUser_others.
    + apply addUser_entry.
    + unfold addUser. apply last_last.
Qed.

End ActiveUsers.

End StoreProps.

(** ** Further properties of the relay *)

Module RelayMore.

Import Relay RelayObs RelayProps.

(** *** Presence and audiences *)



(** X2. A connection is in the users map of at most one board with a truthy
    id: joining another board takes it out of the one it was in. *)
Theorem one_board_per_connection σ c B1 B2 :
  reachable σ → truthy B1 = true → truthy B2 = true →
  c ∈ map_keys (members σ B1) → c ∈ map_keys (members σ B2) → B1 = B2.
Proof.
  intros Hσ%reachable_consistent Ht1 Ht2 H1 H2.
  rewrite <- (member_board _ Hσ _ _ Ht1 H1). by apply (member_board _ Hσ).
Qed.

Lemma one_board_per_connection_witness :
  reachable two_peers ∧
  ∀ B, truthy B = true → "X" ∈ map_keys (members two_peers B) → VStr "abc123" = B.
Proof.
  split; [exact reachable_two_peers|]. intros B Ht HB.
  apply (one_board_per_connection two_peers "X" (VStr "abc123") B
           reachable_two_peers eq_refl Ht); [by_evaluation | exact HB].
Defined.

Lemma in_room_joined_state c p σ A :
  A ≠ jp_boardId p →
  in_room (joined (joined_state c p σ)) A =
    in_room (if switches σ c (jp_boardId p)
             then joined σ ∖ {[ (board_of σ c, c) ]} else joined σ) A.
Proof.
  intros Hne. apply set_eq. intros c'. rewrite !elem_of_in_room.
  unfold joined_state. cbn. rewrite elem_of_union, elem_of_singleton.
  split; [intros [[= ? ?]|?]; [done|done] | by right].
Qed.



(** *** Forwarding and isolation *)





(** X6. Every users-update the relay emits lists the identities of the members
    one board has once the event is handled, in the order of its users
    map, and is addressed to the audience of that board. *)
Theorem users_update_is_current σ c e σ' out aud l :
  handle c e σ = Some (σ', out) →
  mkEmit aud (MUsersUpdate l) ∈ out →
  ∃ B, l = map_values (members σ' B) ∧ aud = in_room (joined σ') B.
Proof.
  intros Hstep.
  destruct e as [[p|]|[p|]|[p|]|f|]; cbn -[exec] in Hstep; try done.
  - rewrite join_room_exec in Hstep. injection Hstep as <- <-.
    rewrite elem_of_app, !elem_of_cons, elem_of_nil.
    intros [Hpre|[[=]|[[= -> ->]|[]]]]; [|by eexists].
    unfold left_announce in Hpre.
    destruct (switches σ c (jp_boardId p)) eqn:Hsw;
      [|by apply elem_of_nil in Hpre].
    destruct (rooms σ !! board_of σ c) as [prev|] eqn:Hprev;
      [|by apply elem_of_nil in Hpre].
    apply list_elem_of_singleton in Hpre as [= -> ->].
    pose proof Hsw as [_ Hne]%switches_spec.
    exists (board_of σ c). split.
    + rewrite members_joined, decide_False by done. rewrite Hsw. cbn.
      rewrite bool_decide_eq_true_2 by done.
      unfold members, room_at. by rewrite Hprev.
    + rewrite in_room_joined_state by done. by rewrite Hsw.
  - rewrite canvas_sync_exec in Hstep. injection Hstep as <- <-.
    by intros [=]%list_elem_of_singleton.
  - rewrite cursor_move_exec in Hstep. injection Hstep as <- <-.
    by intros [=]%list_elem_of_singleton.
  - rewrite ping_exec in Hstep. injection Hstep as <- <-.
    destruct f; [|by intros ?%elem_of_nil].
    by intros [=]%list_elem_of_singleton.
  - rewrite disconnect_exec in Hstep. injection Hstep as <- <-.
    unfold closed_announce.
    destruct (truthy (board_of σ c)) eqn:Ht; [|by intros ?%elem_of_nil].
    destruct (rooms σ !! board_of σ c) as [room|] eqn:Hroom;
      [|by intros ?%elem_of_nil].
    destruct (map_get c (users room)); [|by intros ?%elem_of_nil].
    rewrite !elem_of_cons, elem_of_nil. intros [[=]|[[= -> ->]|[]]].
    exists (board_of σ c). split; [|done].
    rewrite members_closed, Ht. cbn. rewrite bool_decide_eq_true_2 by done.
    unfold members, room_at. by rewrite Hroom.
Qed.

Lemma users_update_is_current_witness :
  ∃ σ' out aud l,
    handle "Y" Disconnect two_peers = Some (σ', out) ∧
    mkEmit aud (MUsersUpdate l) ∈ out ∧
    ∃ B, l = map_values (members σ' B) ∧ aud = in_room (joined σ') B.
Proof.
  exists (state_after (two_peers_events ++ [("Y", Disconnect)])).
  eexists _, {[ "X" ]}, [identity alice].
  assert (handle "Y" Disconnect two_peers =
            Some (state_after (two_peers_events ++ [("Y", Disconnect)]),
                  [mkEmit {[ "X" ]} (MUserLeft (VStr "u-y"));
                   mkEmit {[ "X" ]} (MUsersUpdate [identity alice])])) as Hrun
    by (vm_compute; reflexivity).
  assert (mkEmit {[ "X" ]} (MUsersUpdate [identity alice]) ∈
            [mkEmit {[ "X" ]} (MUserLeft (VStr "u-y"));
             mkEmit {[ "X" ]} (MUsersUpdate [identity alice])]) as Hin
    by (apply elem_of_cons; right; apply elem_of_cons; by left).
  split; [exact Hrun|]. split; [exact Hin|].
  exact (users_update_is_current _ _ _ _ _ _ _ Hrun Hin).
Defined.

(** *** Leaving a room *)







(** *** Connections outside every room *)

Lemma anchored_initial : anchored initial.
Proof. intros c _. by unfold board_of, initial; cbn; rewrite lookup_empty. Qed.

Lemma anchored_step c0 e σ σ' out :
  anchored σ → handle c0 e σ = Some (σ', out) → anchored σ'.
Proof.
  intros Hσ Hstep c.
  destruct e as [[p|]|[p|]|[p|]|f|]; cbn -[exec] in Hstep; try done.
  - rewrite join_room_exec in Hstep. injection Hstep as <- _.
    rewrite board_of_joined. cbn -[joined_state board_of members].
    intros Hc. case_decide as Hcc.
    + subst. intros _. rewrite members_joined_target.
      apply map_keys_set. by left.
    + intros Ht. pose proof (Hσ c Hc Ht) as Hm.
      rewrite members_joined. case_decide; [apply map_keys_set; by right|].
      destruct (switches σ c0 (jp_boardId p) && _); [|done].
      apply map_keys_delete. split; [congruence|done].
  - rewrite canvas_sync_exec in Hstep. injection Hstep as <- _.
    rewrite members_synced. apply Hσ.
  - rewrite cursor_move_exec in Hstep. injection Hstep as <- _. apply Hσ.
  - rewrite ping_exec in Hstep. injection Hstep as <- _. apply Hσ.
  - rewrite disconnect_exec in Hstep. injection Hstep as <- _.
    cbn -[board_of members closed_state].
    intros Hc. assert (c0 ≠ c ∧ c ∉ closed σ) as [Hne Hopen].
    { cbn in Hc. rewrite elem_of_union, elem_of_singleton in Hc.
      split; [intros ->|]; tauto. }
    rewrite board_of_closed by done. intros Ht.
    pose proof (Hσ c Hopen Ht) as Hm. rewrite members_closed.
    destruct (truthy (board_of σ c0) && _); [|done].
    apply map_keys_delete. split; [congruence|done].
Qed.

Lemma reachable_anchored σ : reachable σ → anchored σ.
Proof.
  induction 1; [apply anchored_initial | by eapply anchored_step].
Qed.

(** X9. The disconnect of an open connection that is in no users map, one that
    never joined for instance, changes no room and emits nothing. *)
Theorem disconnect_outside_rooms σ c :
  reachable σ → c ∉ closed σ → (∀ B, c ∉ map_keys (members σ B)) →
  ∃ σ',
    handle c Disconnect σ = Some (σ', []) ∧
    rooms σ' = rooms σ ∧ closed σ' = {[ c ]} ∪ closed σ.
Proof.
  intros Hσ Hc Hout.
  assert (truthy (board_of σ c) = false) as Ht.
  { destruct (truthy (board_of σ c)) eqn:Ht; [|done].
    by destruct (Hout _ (reachable_anchored _ Hσ c Hc Ht)). }
  exists (closed_state c σ). split_and!.
  - cbn -[exec]. rewrite disconnect_exec. unfold closed_announce.
    by rewrite Ht.
  - unfold closed_state. cbn. by rewrite Ht.
  - done.
Qed.

Lemma disconnect_outside_rooms_witness :
  reachable moved_on ∧ ("Y" ∉ closed moved_on) ∧
  (∀ B, "Y" ∉ map_keys (members moved_on B)) ∧
  ∃ σ', handle "Y" Disconnect moved_on = Some (σ', []) ∧
        rooms σ' = rooms moved_on.
Proof.
  assert (reachable moved_on) as Hσ
    by (apply state_after_reachable; vm_compute; reflexivity).
  assert ("Y" ∉ closed moved_on) as Hopen by by_evaluation.
  assert (∀ B, "Y" ∉ map_keys (members moved_on B)) as Hout.
  { intros B Hin.
    pose proof (member_joined _ (reachable_consistent _ Hσ) _ _ Hin Hopen) as Hj.
    apply elem_of_elements in Hj. vm_compute in Hj.
    apply elem_of_cons in Hj as [[=]|Hj]. by apply elem_of_nil in Hj. }
  split_and!; [done..|].
  destruct (disconnect_outside_rooms moved_on "Y" Hσ Hopen Hout)
    as (σ' & Hrun & Hrooms & _).
  by exists σ'.
Defined.

(** *** Snapshots and empty rooms *)

(** X10. The snapshot of a board changes only through a canvas-sync that names
    it: after any other event a room that is still in the registry holds
    the snapshot it held before. *)
Theorem snapshot_changes_only_by_sync σ c e σ' out B :
  handle c e σ = Some (σ', out) →
  (∀ p, e = CanvasSync (Some p) → sp_boardId p ≠ B) →
  is_Some (rooms σ' !! B) →
  snapshot σ' B = snapshot σ B.
Proof.
  intros Hstep Hother Hroom.
  pose proof (snapshot_step c e σ σ' out B Hstep) as Hs.
  destruct e as [[p|]|[p|]|[p|]|f|]; try by apply Hs.
  rewrite Hs. rewrite decide_False; [done|]. by apply Hother.
Qed.

Lemma snapshot_changes_only_by_sync_witness :
  ∃ σ' out,
    handle "Y" Disconnect two_peers = Some (σ', out) ∧
    is_Some (rooms σ' !! VStr "abc123") ∧
    snapshot σ' (VStr "abc123") = VStr "{shapes:[]}".
Proof.
  exists (state_after (two_peers_events ++ [("Y", Disconnect)])).
  eexists.
  assert (handle "Y" Disconnect two_peers =
            Some (state_after (two_peers_events ++ [("Y", Disconnect)]),
                  [mkEmit {[ "X" ]} (MUserLeft (VStr "u-y"));
                   mkEmit {[ "X" ]} (MUsersUpdate [identity alice])])) as Hrun
    by (vm_compute; reflexivity).
  assert (is_Some (rooms (state_after (two_peers_events ++ [("Y", Disconnect)]))
                     !! VStr "abc123")) as Hroom
    by (vm_compute; by eexists).
  split_and!; [exact Hrun|exact Hroom|].
  rewrite (snapshot_changes_only_by_sync _ _ _ _ _ (VStr "abc123") Hrun);
    [vm_compute; reflexivity|done|exact Hroom].
Defined.

(** X11. From the relay as it starts, a run in which no canvas-sync names a
    board without a room leaves every room of the registry with at least
    one member. *)
Theorem rooms_stay_populated evs σ out :
  never_stray evs initial → run evs initial = Some (σ, out) → populated σ.
Proof.
  assert (∀ σ0, populated σ0 → never_stray evs σ0 →
                run evs σ0 = Some (σ, out) → populated σ) as Hgen.
  { revert out. induction evs as [|[c e] evs IH]; intros out σ0 Hpop; cbn.
    - by intros _ [= <- _].
    - intros [Hns Hrest].
      destruct (handle c e σ0) as [[σ1 out1]|] eqn:Hstep; [|done]. cbn.
      destruct (run evs σ1) as [[σ2 out2]|] eqn:Hrun; [|done]. cbn.
      intros [= <- _]. eapply IH; [|done..].
      by eapply populated_step. }
  apply Hgen. intros B room. unfold initial. cbn. by rewrite lookup_empty.
Qed.

Lemma rooms_stay_populated_witness :
  never_stray two_peers_events initial ∧ populated two_peers.
Proof.
  assert (never_stray two_peers_events initial) as Hns.
  { vm_compute. repeat split; try discriminate; tauto. }
  split; [exact Hns|].
  eapply (rooms_stay_populated two_peers_events two_peers _ Hns).
  vm_compute. reflexivity.
Defined.

End RelayMore.

(** ** Further properties of the debounced broadcast *)

Module SyncMore.

Import Sync SyncObs SyncProps.

Lemma unmount_unmounted st : tidy st → unmounted (unmount st).
Proof.
  unfold tidy, unmounted, unmount. intros Ht. cbn. split; [done|].
  destruct (timers st) as [|[id d] [|? ?]] eqn:Hts; [| |done].
  - by destruct (syncTimerRef st).
  - rewrite Ht. apply clearTimeout_sole.
Qed.

Lemma unmounted_step e st :
  unmounted st → unmounted (step e st) ∧ outbox (step e st) = outbox st.
Proof.
  intros [Hf Hts]. destruct e as [json|ms| |json|]; cbn.
  - unfold mutation, emitCanvasSync. cbn. rewrite Hf.
    by destruct (isRemoteUpdateRef st).
  - unfold elapse. rewrite Hts. cbn. by split.
  - unfold applyRemoteCanvas. rewrite Hf. cbn. by split.
  - by split.
  - unfold unmount, unmounted. cbn. rewrite Hts.
    by destruct (syncTimerRef st).
Qed.

(** X12. Once the canvas has been unmounted nothing is emitted any more,
    whatever is observed and however much time passes: the cleanup has
    cleared the pending timeout, and no new one can be set. *)
Theorem no_emission_after_unmount st evs :
  tidy st → outbox (run evs (unmount st)) = outbox st.
Proof.
  intros Ht.
  assert (∀ st0, unmounted st0 → outbox (run evs st0) = outbox st0) as Hgen.
  { induction evs as [|e evs IH]; intros st0 Hun; [done|]. cbn.
    destruct (unmounted_step e st0 Hun) as [Hun' Hout].
    fold (run evs (step e st0)). by rewrite IH. }
  rewrite Hgen by by apply unmount_unmounted. done.
Qed.

Lemma no_emission_after_unmount_witness :
  let st := mutation "{a}" (mounted "abc123" "{}") in
  tidy st ∧ timers st = [(1%positive, 120)] ∧
  outbox (run [Elapse 200; Mutation "{b}"; Elapse 200] (unmount st)) = [].
Proof.
  intros st. assert (tidy st) as Ht by reflexivity.
  split_and!; [exact Ht|reflexivity|].
  exact (no_emission_after_unmount st _ Ht).
Defined.




(** X14. A snapshot received while an emission is pending does not cancel it:
    when the delay expires the client emits the canvas as it stands then,
    which is the state [remote] that loading the snapshot left, and not
    the local state that started the delay. *)
Theorem pending_emit_carries_remote_snapshot st json remote ms :
  armed st json → debounce_ms ≤ ms →
  outbox (elapse ms (run [RemoteSync; RemoteLoaded remote] st)) =
    outbox st ++ [(board st, remote)].
Proof.
  intros Ha Hms.
  assert (armed (run [RemoteSync; RemoteLoaded remote] st) remote ∧
          outbox (run [RemoteSync; RemoteLoaded remote] st) = outbox st ∧
          board (run [RemoteSync; RemoteLoaded remote] st) = board st)
    as (Ha' & Hout & Hb).
  { destruct Ha as (Hf & Hr & Hfc & id & Hts & Href).
    cbn. unfold applyRemoteCanvas. rewrite Hf. cbn.
    split_and!; try done. unfold armed. cbn. split_and!; try done.
    by exists id. }
  destruct (elapse_fires _ _ ms Ha' Hms) as (Hfire & _ & _).
  rewrite Hfire. congruence.
Qed.

Lemma pending_emit_carries_remote_snapshot_witness :
  let st := mutation "{mine}" (mounted "abc123" "{}") in
  armed st "{mine}" ∧
  outbox (elapse 120 (run [RemoteSync; RemoteLoaded "{theirs}"] st)) =
    [("abc123", "{theirs}")].
Proof.
  intros st.
  destruct (mutation_arms (mounted "abc123" "{}") "{mine}" I eq_refl eq_refl)
    as [Ha _].
  split; [exact Ha|].
  apply (pending_emit_carries_remote_snapshot st "{mine}" "{theirs}" 120 Ha).
  unfold debounce_ms. lia.
Defined.

End SyncMore.

(** ** Undo history and zoom *)

Module BoardProps.

Import Board.

(** *** Slices *)

Lemma slice_prefix {A} (n : Z) (l : list A) :
  (0 ≤ n)%Z → slice 0 n l = take (Z.to_nat n) l.
Proof.
  intros Hn. unfold slice.
  replace (0 <? 0)%Z with false by done.
  rewrite (proj2 (Z.ltb_ge n 0)) by lia.
  replace (Z.min 0 (Z.of_nat (length l))) with 0%Z by lia.
  rewrite Z.sub_0_r. change (Z.to_nat 0) with 0. rewrite drop_0.
  destruct (decide (n ≤ Z.of_nat (length l))%Z).
  - by rewrite Z.min_l by lia.
  - rewrite Z.min_r by lia. rewrite Nat2Z.id.
    by rewrite !take_ge by lia.
Qed.

Lemma slice_last_50 {A} (l : list A) :
  slice_from (-50) l = drop (length l - 50) l.
Proof.
  unfold slice_from, slice.
  replace (-50 <? 0)%Z with true by done.
  rewrite (proj2 (Z.ltb_ge (Z.of_nat (length l)) 0)) by lia.
  rewrite Z.min_id.
  replace (Z.to_nat (Z.max (Z.of_nat (length l) + -50) 0))
    with (length l - 50) by lia.
  apply take_ge. rewrite length_drop. lia.
Qed.

(** What pushHistory stores, for any store: the last fifty of the
    entries kept and the new one. *)
Lemma pushHistory_history state s :
  let kept := slice 0 (historyIndex s + 1) (history s) in
  history (pushHistory state s) =
    drop (length (kept ++ [state]) - 50) (kept ++ [state]) ∧
  historyIndex (pushHistory state s) =
    (Z.of_nat (length (history (pushHistory state s))) - 1)%Z.
Proof. intros kept. unfold pushHistory. cbn. by rewrite slice_last_50. Qed.

Lemma pushHistory_length state s :
  1 ≤ length (history (pushHistory state s)) ≤ 50.
Proof.
  destruct (pushHistory_history state s) as [-> _].
  rewrite length_drop, length_app. cbn. lia.
Qed.

Lemma pushHistory_last state s :
  history (pushHistory state s) !!
    (length (history (pushHistory state s)) - 1) = Some state.
Proof.
  destruct (pushHistory_history state s) as [-> _].
  set (kept := slice 0 (historyIndex s + 1) (history s)).
  rewrite lookup_drop, length_drop, length_app. cbn.
  replace (length kept + 1 - 50 + (length kept + 1 - (length kept + 1 - 50) - 1))
    with (length kept + 0) by lia.
  by rewrite lookup_app_r, Nat.add_0_r, Nat.sub_diag by lia.
Qed.

Lemma entry_lookup l i e :
  (0 ≤ i)%Z → l !! Z.to_nat i = Some e → entry l i = VStr e.
Proof.
  intros Hi Hl. unfold entry. rewrite (proj2 (Z.ltb_ge i 0)) by lia.
  by rewrite Hl.
Qed.

(** *** The index stays inside the history *)

Lemma wellformed_pushHistory state s : wellformed (pushHistory state s).
Proof.
  right. pose proof (pushHistory_length state s) as Hlen.
  destruct (pushHistory_history state s) as [_ ->]. lia.
Qed.

Lemma wellformed_undo s : wellformed s → wellformed (undo s).2.
Proof.
  intros Hwf. unfold undo.
  destruct (Z.leb_spec (historyIndex s) 0); [done|]. cbn.
  destruct Hwf as [[_ Hi]|[Hi Hlen]]; [lia|]. right. cbn. lia.
Qed.

Lemma wellformed_redo s : wellformed s → wellformed (redo s).2.
Proof.
  intros Hwf. unfold redo.
  destruct (Z.geb_spec (historyIndex s) (Z.of_nat (length (history s)) - 1));
    [done|]. cbn.
  destruct Hwf as [[He Hi]|[Hi Hlen]]; [rewrite He in *; cbn in *; lia|].
  right. cbn. lia.
Qed.

Lemma wellformed_apply_action a s : wellformed s → wellformed (apply_action a s).
Proof.
  intros Hwf. destruct a; cbn.
  - apply wellformed_pushHistory.
  - by apply wellformed_undo.
  - by apply wellformed_redo.
  - by left.
Qed.

Lemma wellformed_after actions : wellformed (history_after actions).
Proof.
  unfold history_after.
  assert (wellformed empty_store) as Hwf by by left.
  revert Hwf. generalize empty_store.
  induction actions as [|a actions IH]; intros s Hwf; [done|].
  cbn. by apply IH, wellformed_apply_action.
Qed.

Lemma wellformed_current s :
  wellformed s → (0 ≤ historyIndex s)%Z →
  ∃ current, history s !! Z.to_nat (historyIndex s) = Some current.
Proof.
  intros [[_ Hi]|[Hi Hlen]] H0; [lia|].
  apply lookup_lt_is_Some. lia.
Qed.

(** X15. Whatever has been pushed, undone, redone and cleared, the history
    holds at most fifty snapshots and the index points at one of them,
    or the history is empty and the index is -1. *)
Theorem history_index_in_range actions :
  let s := history_after actions in
  length (history s) ≤ 50 ∧
  (-1 ≤ historyIndex s < Z.of_nat (length (history s)))%Z ∧
  (historyIndex s = (-1)%Z ↔ history s = []).
Proof.
  intros s. destruct (wellformed_after actions) as [[He Hi]|[Hi Hlen]];
    fold s in He, Hi || fold s in Hi, Hlen.
  - rewrite He, Hi. cbn. split_and!; try lia. done.
  - split_and!; try lia. split; [lia|].
    intros He. rewrite He in Hi. cbn in Hi. lia.
Qed.

(** X16. The snapshot just pushed is the current one and the last one: no
    snapshot is left to redo, whatever had been undone before. *)
Theorem pushed_state_is_last state s :
  let s' := pushHistory state s in
  entry (history s') (historyIndex s') = VStr state ∧
  redo s' = (VNull, s').
Proof.
  intros s'. pose proof (pushHistory_length state s) as Hlen.
  pose proof (pushHistory_last state s) as Hlast.
  destruct (pushHistory_history state s) as [_ Hi]. fold s' in Hlen, Hlast, Hi.
  split.
  - apply entry_lookup; [lia|]. rewrite Hi.
    by replace (Z.to_nat (Z.of_nat (length (history s')) - 1))
      with (length (history s') - 1) by lia.
  - unfold redo. rewrite Hi.
    by replace (_ >=? _)%Z with true by lia.
Qed.

(** X17. Undo right after a push gives back the snapshot that was current
    before the push, also when the push has dropped the oldest one. *)
Theorem undo_after_push_returns_previous state s previous :
  wellformed s →
  history s !! Z.to_nat (historyIndex s) = Some previous →
  (undo (pushHistory state s)).1 = VStr previous.
Proof.
  intros Hwf Hprev.
  destruct Hwf as [[He _]|[Hi Hlen]]; [by rewrite He in Hprev|].
  pose proof (pushHistory_length state s) as Hlen'.
  destruct (pushHistory_history state s) as [Hh Hi'].
  rewrite slice_prefix in Hh by lia.
  set (s' := pushHistory state s) in *.
  set (kept := take (Z.to_nat (historyIndex s + 1)) (history s)) in *.
  assert (length kept = Z.to_nat (historyIndex s + 1)) as Hkept
    by (unfold kept; rewrite length_take; lia).
  assert (length (history s') = (length kept + 1) `min` 50) as Hl.
  { rewrite Hh, length_drop, length_app. cbn. lia. }
  unfold undo. replace (historyIndex s' <=? 0)%Z with false by lia.
  cbn [fst]. apply entry_lookup; [lia|].
  rewrite Hh, lookup_drop, length_app. cbn [length].
  replace (length kept + 1 - 50 + Z.to_nat (historyIndex s' - 1))
    with (Z.to_nat (historyIndex s)) by lia.
  rewrite lookup_app_l by lia.
  unfold kept. rewrite lookup_take_lt by lia. done.
Qed.

Lemma undo_after_push_returns_previous_witness :
  let s := history_after [PushHistory "{a}"; PushHistory "{b}"; Undo] in
  wellformed s ∧ history s !! Z.to_nat (historyIndex s) = Some "{a}" ∧
  (undo (pushHistory "{c}" s)).1 = VStr "{a}".
Proof.
  intros s.
  assert (wellformed s) as Hwf by (right; vm_compute; split_and!; lia || done).
  split_and!; [exact Hwf|reflexivity|].
  exact (undo_after_push_returns_previous "{c}" s "{a}" Hwf eq_refl).
Defined.

(** X18. Undo followed by redo returns the snapshot that was current and
    puts the store back as it was. *)
Theorem undo_redo_round_trip s :
  wellformed s → (0 < historyIndex s)%Z →
  ∃ current, history s !! Z.to_nat (historyIndex s) = Some current ∧
    redo (undo s).2 = (VStr current, s).
Proof.
  intros Hwf Hi.
  destruct (wellformed_current s Hwf) as [current Hc]; [lia|].
  exists current. split; [done|].
  destruct Hwf as [[_ ?]|[Hr Hlen]]; [lia|].
  unfold undo. replace (historyIndex s <=? 0)%Z with false by lia. cbn.
  unfold redo. cbn.
  replace (_ >=? _)%Z with false by lia.
  replace (historyIndex s - 1 + 1)%Z with (historyIndex s) by lia.
  rewrite (entry_lookup _ _ current) by (lia || done).
  by destruct s.
Qed.

Lemma undo_redo_round_trip_witness :
  let s := history_after [PushHistory "{a}"; PushHistory "{b}"] in
  wellformed s ∧ (0 < historyIndex s)%Z ∧
  ∃ current, history s !! Z.to_nat (historyIndex s) = Some current ∧
    redo (undo s).2 = (VStr current, s).
Proof.
  intros s.
  assert (wellformed s) as Hwf by (right; vm_compute; split_and!; lia || done).
  assert (0 < historyIndex s)%Z as Hi by reflexivity.
  split_and!; [exact Hwf|exact Hi|].
  exact (undo_redo_round_trip s Hwf Hi).
Defined.

(** X19. Redo followed by undo returns the snapshot that was current and
    puts the store back as it was. *)
Theorem redo_undo_round_trip s :
  wellformed s →
  (historyIndex s < Z.of_nat (length (history s)) - 1)%Z →
  ∃ current, history s !! Z.to_nat (historyIndex s) = Some current ∧
    undo (redo s).2 = (VStr current, s).
Proof.
  intros Hwf Hi.
  destruct Hwf as [[He ?]|[Hr Hlen]]; [rewrite He in Hi; cbn in Hi; lia|].
  destruct (wellformed_current s (or_intror (conj Hr Hlen))) as [current Hc];
    [lia|].
  exists current. split; [done|].
  unfold redo. replace (_ >=? _)%Z with false by lia. cbn.
  unfold undo. cbn.
  replace (historyIndex s + 1 <=? 0)%Z with false by lia.
  replace (historyIndex s + 1 - 1)%Z with (historyIndex s) by lia.
  rewrite (entry_lookup _ _ current) by (lia || done).
  by destruct s.
Qed.

Lemma redo_undo_round_trip_witness :
  let s := history_after [PushHistory "{a}"; PushHistory "{b}"; Undo] in
  wellformed s ∧ (historyIndex s < Z.of_nat (length (history s)) - 1)%Z ∧
  ∃ current, history s !! Z.to_nat (historyIndex s) = Some current ∧
    undo (redo s).2 = (VStr current, s).
Proof.
  intros s.
  assert (wellformed s) as Hwf by (right; vm_compute; split_and!; lia || done).
  assert (historyIndex s < Z.of_nat (length (history s)) - 1)%Z as Hi
    by reflexivity.
  split_and!; [exact Hwf|exact Hi|].
  exact (redo_undo_round_trip s Hwf Hi).
Defined.

(** X20. A push onto a full history drops the oldest snapshot and keeps the
    other forty-nine in order. *)
Theorem push_on_full_history_drops_oldest state s :
  length (history s) = 50 → historyIndex s = 49%Z →
  history (pushHistory state s) = drop 1 (history s) ++ [state] ∧
  historyIndex (pushHistory state s) = 49%Z.
Proof.
  intros Hlen Hi.
  destruct (pushHistory_history state s) as [Hh Hi'].
  rewrite slice_prefix in Hh by lia.
  rewrite take_ge in Hh by lia.
  rewrite length_app, Hlen in Hh. change (50 + length [state] - 50) with 1 in Hh.
  rewrite drop_app_le in Hh by lia.
  rewrite Hi', Hh. split; [done|].
  rewrite length_app, length_drop, Hlen. cbn. lia.
Qed.

Lemma push_on_full_history_drops_oldest_witness :
  let s := {| history := replicate 50 "{a}"; historyIndex := 49 |} in
  length (history s) = 50 ∧ historyIndex s = 49%Z ∧
  history (pushHistory "{b}" s) = replicate 49 "{a}" ++ ["{b}"] ∧
  historyIndex (pushHistory "{b}" s) = 49%Z.
Proof.
  intros s. split_and!; [reflexivity|reflexivity| |];
    apply (push_on_full_history_drops_oldest "{b}" s eq_refl eq_refl).
Defined.

(** X21. Undo and redo give null or a snapshot of the history, never
    undefined, after any use of the store. *)
Theorem undo_redo_give_null_or_snapshot actions :
  let s := history_after actions in
  ((undo s).1 = VNull ∨
   ∃ snapshot, snapshot ∈ history s ∧ (undo s).1 = VStr snapshot) ∧
  ((redo s).1 = VNull ∨
   ∃ snapshot, snapshot ∈ history s ∧ (redo s).1 = VStr snapshot).
Proof.
  intros s. pose proof (wellformed_after actions) as Hwf. fold s in Hwf.
  assert (∀ i, (0 ≤ i < Z.of_nat (length (history s)))%Z →
    ∃ snapshot, snapshot ∈ history s ∧ entry (history s) i = VStr snapshot)
    as Hentry.
  { intros i Hi.
    destruct (lookup_lt_is_Some_2 (history s) (Z.to_nat i)) as [e He]; [lia|].
    exists e. split; [by eapply list_elem_of_lookup_2|].
    apply entry_lookup; [lia|done]. }
  split.
  - unfold undo. destruct (Z.leb_spec (historyIndex s) 0); [by left|].
    right. cbn. apply Hentry.
    destruct Hwf as [[_ ?]|[? ?]]; lia.
  - unfold redo.
    destruct (Z.geb_spec (historyIndex s) (Z.of_nat (length (history s)) - 1));
      [by left|].
    right. cbn. apply Hentry.
    destruct Hwf as [[He ?]|[? ?]]; [rewrite He in *; cbn in *; lia|lia].
Qed.

(** *** Zoom *)

Lemma click_in_range b zoom :
  (∃ k, zoom = 10 * k ∧ 5 ≤ k ≤ 20)%Z →
  (∃ k, click b zoom = 10 * k ∧ 5 ≤ k ≤ 20)%Z.
Proof.
  intros (k & -> & Hk). destruct b; unfold click, setZoom.
  - exists (Z.max 5 (k - 1)). lia.
  - exists (Z.min 20 (k + 1)). lia.
Qed.

(** X22. However the zoom buttons are clicked, the zoom stays between 50 and
    200 and is a multiple of ten. *)
Theorem zoom_stays_in_range clicks :
  (50 ≤ zoom_after clicks ≤ 200)%Z ∧ (zoom_after clicks `mod` 10 = 0)%Z.
Proof.
  assert (∃ k, zoom_after clicks = 10 * k ∧ 5 ≤ k ≤ 20)%Z as (k & -> & Hk).
  { unfold zoom_after.
    assert (∃ k, initial_zoom = 10 * k ∧ 5 ≤ k ≤ 20)%Z as H
      by (exists 10%Z; unfold initial_zoom; lia).
    revert H. generalize initial_zoom.
    induction clicks as [|b clicks IH]; intros zoom H; [done|].
    cbn. by apply IH, click_in_range. }
  split; [lia|]. by rewrite Z.mul_comm, Z.mod_mul.
Qed.

End BoardProps.

(** ** The presence handlers *)

Module PresenceProps.

Import Store Presence.

Section Handlers.

Context {number : Type} (offscreen : @UserCursor number).

Local Abbreviation User := (@Store.User number) (only parsing).
Local Abbreviation id := (@Store.id number) (only parsing).
Local Abbreviation cursor := (@Store.cursor number) (only parsing).

Lemma filter_all {A} (P : A → Prop) `{∀ a, Decision (P a)} (l : list A) :
  (∀ a, a ∈ l → P a) → filter P l = l.
Proof.
  induction l as [|a l IH]; intros Hall; [done|].
  rewrite filter_cons_True by (apply Hall; left).
  rewrite IH; [done|]. intros b Hb. apply Hall. by right.
Qed.


(** X24. A cursor-move for a user who is not in the list changes nothing: it
    does not add the user. *)
Theorem cursor_move_of_unknown_user_ignored uid cx cy (activeUsers : list User) :
  uid ∉ id <$> activeUsers →
  on_cursor_move uid cx cy activeUsers = activeUsers.
Proof.
  intros Hnotin. unfold on_cursor_move, updateUserCursor.
  rewrite <- (list_fmap_id activeUsers) at 2.
  apply list_fmap_ext. intros _ u Hu%list_elem_of_lookup_2. cbn.
  case_decide as Hid; [|done]. destruct Hnotin.
  apply list_elem_of_fmap. by exists u.
Qed.

(** X25. A user who joins and then leaves leaves the list as it was, when the
    list did not hold that user before. *)
Theorem joined_then_left_restores u (activeUsers : list User) :
  userId u ∉ id <$> activeUsers →
  on_user_left (userId u) (on_user_joined offscreen u activeUsers) =
    activeUsers.
Proof.
  intros Hnotin. unfold on_user_left, on_user_joined, removeUser, addUser.
  rewrite filter_app, list_filter_filter.
  rewrite filter_cons_False by (cbn; tauto).
  rewrite filter_nil, app_nil_r.
  apply filter_all. intros v Hv. cbn. split; intros Hid; apply Hnotin;
    apply list_elem_of_fmap; by exists v.
Qed.

End Handlers.

Lemma cursor_move_of_unknown_user_ignored_witness :
  ("u2" ∉ Store.id <$> [ada]) ∧
  on_cursor_move "u2" 1%Z 2%Z [ada] = [ada].
Proof.
  assert ("u2" ∉ Store.id <$> [ada]) as H.
  { intros [Hx|Hx]%elem_of_cons; [discriminate|]. by apply not_elem_of_nil in Hx. }
  split; [exact H|].
  exact (cursor_move_of_unknown_user_ignored "u2" 1%Z 2%Z [ada] H).
Defined.

Lemma joined_then_left_restores_witness :
  let off := {| Store.x := (-200)%Z; Store.y := (-200)%Z |} in
  let u := {| userId := "u2"; userName := "Bo"; wireColor := "#EF4444" |} in
  (userId u ∉ Store.id <$> [ada]) ∧
  on_user_left (userId u) (on_user_joined off u [ada]) = [ada].
Proof.
  intros off u.
  assert (userId u ∉ Store.id <$> [ada]) as H.
  { intros [Hx|Hx]%elem_of_cons; [discriminate|]. by apply not_elem_of_nil in Hx. }
  split; [exact H|].
  exact (joined_then_left_restores off u [ada] H).
Defined.

End PresenceProps.

(** ** The connection settings *)

Module ConfigProps.

Import Config.

(** X26. The settings derived from the environment agree: either a server is
    available and the client uses its path, both transports and retries
    without end, or none is and the client uses the serverless path, by
    polling only, and gives up after five attempts. *)
Theorem settings_agree e :
  (collabAvailable e = true ∧ socketPath e = "/socket.io" ∧
   transports e = [websocket; polling] ∧ reconnectionAttempts e = None) ∨
  (collabAvailable e = false ∧ socketPath e = "/api/socket" ∧
   transports e = [polling] ∧ reconnectionAttempts e = Some 5).
Proof.
  unfold collabAvailable, socketPath, transports, reconnectionAttempts,
    collabAvailable.
  destruct (configured e), (DEV e); cbn; tauto.
Qed.

End ConfigProps.

(** ** The board of the tab *)

Module LocationProps.

Import Location.

Lemma get_set name value ps : get name (set name value ps) = Some value.
Proof.
  induction ps as [|[k v] ps IH]; cbn.
  - by rewrite decide_True.
  - case_decide; cbn; [by rewrite decide_True|]. by rewrite decide_False.
Qed.

Lemma get_filter_other name other (ps : list (string * string)) :
  other ≠ name → get other (filter (λ p, p.1 ≠ name) ps) = get other ps.
Proof.
  intros Hne. induction ps as [|[k v] ps IH]; [done|].
  rewrite filter_cons. cbn. case_decide as Hk; cbn.
  - by rewrite IH.
  - rewrite IH. rewrite decide_False; [done|]. intros ->. tauto.
Qed.

Lemma get_set_other name value other ps :
  other ≠ name → get other (set name value ps) = get other ps.
Proof.
  intros Hne. induction ps as [|[k v] ps IH]; cbn.
  - by rewrite decide_False.
  - case_decide as Hk; cbn.
    + subst k. rewrite !decide_False by done. by apply get_filter_other.
    + by rewrite IH.
Qed.

(** X27. Once getBoardId has given an id, it gives the same id again and
    leaves the page address alone, whatever is drawn: the id is the one
    of the address. This needs the id drawn first to be non-empty. *)
Theorem getBoardId_stable random search :
  random ≠ EmptyString →
  ∀ again,
    getBoardId again (getBoardId random search).2 = getBoardId random search.
Proof.
  intros Hne again. unfold getBoardId at 2 3.
  assert (getBoardId again (set "board" random search) =
          (random, set "board" random search)) as Hset.
  { unfold getBoardId. rewrite get_set.
    destruct (String.eqb_spec random EmptyString); done. }
  destruct (get "board" search) as [boardId|] eqn:Hget; [|done].
  destruct (String.eqb_spec boardId EmptyString) as [->|Hb]; [done|]. cbn.
  unfold getBoardId. rewrite Hget.
  by destruct (String.eqb_spec boardId EmptyString).
Qed.

Lemma getBoardId_stable_witness :
  "k3f9x2ab" ≠ EmptyString ∧
  getBoardId "zzzzzzzz" (getBoardId "k3f9x2ab" [("lang", "en")]).2 =
    ("k3f9x2ab", [("lang", "en"); ("board", "k3f9x2ab")]).
Proof.
  assert ("k3f9x2ab" ≠ EmptyString) as H by discriminate.
  split; [exact H|].
  exact (getBoardId_stable "k3f9x2ab" [("lang", "en")] H "zzzzzzzz").
Defined.

(** X28. getBoardId touches no other parameter of the page address. *)
Theorem getBoardId_keeps_other_parameters random search name :
  name ≠ "board" →
  get name (getBoardId random search).2 = get name search.
Proof.
  intros Hne. unfold getBoardId.
  destruct (get "board" search) as [boardId|]; [|by apply get_set_other].
  destruct (String.eqb boardId EmptyString); [by apply get_set_other|done].
Qed.

Lemma getBoardId_keeps_other_parameters_witness :
  "lang" ≠ "board" ∧
  get "lang" (getBoardId "k3f9x2ab" [("lang", "en")]).2 = Some "en".
Proof.
  assert ("lang" ≠ "board") as H by discriminate.
  split; [exact H|].
  exact (getBoardId_keeps_other_parameters "k3f9x2ab" [("lang", "en")] "lang" H).
Defined.

End LocationProps.

